(** * pgcopydb, src/bin/pgcopydb/file_utils.c: a shallow embedding

    The C functions of file_utils.c are embedded as computations over an
    explicit [World]: the file store, the open streams, the live heap
    buffers, [errno], the log, and a schedule of environment faults that
    decides which libc calls fail.  A computation that would be undefined
    behaviour in C (an out-of-bounds write, the use of a closed stream)
    yields [None]. *)

From Stdlib Require Import ZArith Lia Ascii String Strings.Byte.
From stdpp Require Import base option list strings gmap.

Local Open Scope list_scope.

(** ** Constants and collaborators that file_utils.c consumes

    MAXPGPATH comes from PostgreSQL's pg_config_manual.h, PATH_MAX from
    limits.h, MAXPATHSIZE from file_utils.h; [join_path_components] and
    [canonicalize_path] are PostgreSQL's src/port/path.c.  None of them is
    defined in file_utils.c, so they are parameters of the development.
    (The capacity of [SearchPath.matches], also from file_utils.h, is the
    length of the list that stands for the array.) *)
Class Platform := {
  MAXPGPATH : nat;
  PATH_MAX : nat;
  MAXPATHSIZE : nat;
  join_path_components : string -> string -> string;
  canonicalize_path : string -> string
}.

(** ** Machine integers

    [long] and [size_t] are 64 bits wide, [int] is 32 bits wide (LP64, the
    platforms pgcopydb builds on). *)
Definition LONG_MAX : Z := 2 ^ 63 - 1.

Definition PTRDIFF_MAX : Z := 2 ^ 63 - 1.

(** The value of a [long] expression whose mathematical value is [z]. *)
Definition long_wrap (z : Z) : Z := (z + 2 ^ 63) mod 2 ^ 64 - 2 ^ 63.

(** A [long] converted to [size_t]. *)
Definition size_t_of_long (z : Z) : Z := z mod 2 ^ 64.

(** An [int] converted to [size_t]. *)
Definition size_t_of_int (n : Z) : nat := Z.to_nat (n mod 2 ^ 64).

(** ** The world *)

Inductive errno_t :=
  ENOENT | ENOTDIR | EACCES | EPERM | EIO | ENOMEM | ENOSPC | EROFS | EXDEV
| ENAMETOOLONG | EOVERFLOW | EISDIR.

Inductive syscall :=
  SYS_access | SYS_open | SYS_fdopen | SYS_fopen | SYS_fseek | SYS_ftell
| SYS_malloc | SYS_fread | SYS_fwrite | SYS_fclose | SYS_rename | SYS_unlink
| SYS_stat | SYS_chown | SYS_chmod.

#[global] Instance errno_eq_dec : EqDecision errno_t.
Proof. solve_decision. Defined.

(** What the environment does to one libc call: [Err e] makes it fail with
    [errno = e]; [Partial n e] makes fread/fwrite transfer at most [n] items
    before failing with [e] (other calls ignore it). *)
Inductive fault :=
| Err (e : errno_t)
| Partial (n : nat) (e : errno_t).

Inductive log_level := LOG_DEBUG | LOG_WARN | LOG_ERROR | LOG_FATAL.

(** A regular file: its bytes and the [struct stat] fields the code reads. *)
Record File := mkFile {
  f_data : list byte;
  st_uid : Z;
  st_gid : Z;
  st_mode : Z
}.

(** An open stream (a [FILE *] or a descriptor): the file it is bound to and
    its position. *)
Record Stream := mkStream {
  s_path : string;
  s_pos : nat
}.

(** The part of the environment that no call of this layer changes. *)
Record Config := mkConfig {
  c_mount : string -> nat;               (* the filesystem a path lives on *)
  c_umask : Z;
  c_euid : Z;
  c_egid : Z;
  c_realpath : string -> option string;  (* symlink resolution *)
  c_get_env_copy : string -> nat -> option string
}.

Record World := mkWorld {
  w_cfg : Config;
  w_fs : gmap string File;
  w_fds : gmap nat Stream;
  w_heap : gset nat;
  w_errno : option errno_t;
  w_sched : syscall -> list fault;
  w_log : list (log_level * string)
}.

Definition with_fs (f : gmap string File -> gmap string File) (w : World) : World :=
  mkWorld (w_cfg w) (f (w_fs w)) (w_fds w) (w_heap w) (w_errno w) (w_sched w) (w_log w).

Definition with_fds (f : gmap nat Stream -> gmap nat Stream) (w : World) : World :=
  mkWorld (w_cfg w) (w_fs w) (f (w_fds w)) (w_heap w) (w_errno w) (w_sched w) (w_log w).

Definition with_heap (f : gset nat -> gset nat) (w : World) : World :=
  mkWorld (w_cfg w) (w_fs w) (w_fds w) (f (w_heap w)) (w_errno w) (w_sched w) (w_log w).

Definition with_errno (e : option errno_t) (w : World) : World :=
  mkWorld (w_cfg w) (w_fs w) (w_fds w) (w_heap w) e (w_sched w) (w_log w).

Definition with_sched (s : syscall -> list fault) (w : World) : World :=
  mkWorld (w_cfg w) (w_fs w) (w_fds w) (w_heap w) (w_errno w) s (w_log w).

Definition with_log (l : list (log_level * string)) (w : World) : World :=
  mkWorld (w_cfg w) (w_fs w) (w_fds w) (w_heap w) (w_errno w) (w_sched w) l.

(** ** The monad: state passing, [None] for undefined behaviour *)

Definition M (A : Type) : Type := World -> option (A * World).

Definition ret {A} (a : A) : M A := fun w => Some (a, w).

Definition bind {A B} (m : M A) (k : A -> M B) : M B :=
  fun w => match m w with
           | Some (a, w1) => k a w1
           | None => None
           end.

Definition undefined {A} : M A := fun _ => None.

Definition gets {A} (f : World -> A) : M A := fun w => Some (f w, w).

Definition modify (f : World -> World) : M unit := fun w => Some (tt, f w).

Notation "'let*' x := m 'in' k" := (bind m (fun x => k))
  (at level 10, x pattern, m at level 100, k at level 200, only parsing).

Definition set_errno (e : errno_t) : M unit := modify (with_errno (Some e)).

(** The log keeps the level and the format string of each message (without
    the quotation marks the source puts around its arguments). *)
Definition log_level_msg (lvl : log_level) (msg : string) : M unit :=
  modify (fun w => with_log (w_log w ++ [(lvl, msg)])%list w).

Definition log_debug := log_level_msg LOG_DEBUG.
Definition log_warn := log_level_msg LOG_WARN.
Definition log_error := log_level_msg LOG_ERROR.
Definition log_fatal := log_level_msg LOG_FATAL.

(** ** C strings *)

Definition code (c : ascii) : Z := Z.of_nat (nat_of_ascii c).

Fixpoint strcmp (s1 s2 : string) : Z :=
  match s1, s2 with
  | EmptyString, EmptyString => 0
  | EmptyString, String c2 _ => - code c2
  | String c1 _, EmptyString => code c1
  | String c1 r1, String c2 r2 =>
      if decide (c1 = c2) then strcmp r1 r2 else code c1 - code c2
  end%Z.

Fixpoint strncmp (s1 s2 : string) (n : nat) : Z :=
  match n with
  | O => 0
  | S n' =>
      match s1, s2 with
      | EmptyString, EmptyString => 0
      | EmptyString, String c2 _ => - code c2
      | String c1 _, EmptyString => code c1
      | String c1 r1, String c2 r2 =>
          if decide (c1 = c2) then strncmp r1 r2 n' else code c1 - code c2
      end
  end%Z.

(** A [string] stands for the bytes before the terminator of a C string,
    none of which is the NUL byte. *)
Fixpoint is_c_string (s : string) : bool :=
  match s with
  | EmptyString => true
  | String c r => negb (bool_decide (c = Ascii.zero)) && is_c_string r
  end.

Fixpoint str_take (n : nat) (s : string) : string :=
  match n, s with
  | S n', String c r => String c (str_take n' r)
  | _, _ => EmptyString
  end.

(** [strlcpy(dst, src, size)] into a buffer of [cap] bytes: the new contents
    of [dst] and the returned [strlen(src)].  With [size = 0] nothing is
    written; writing more than [cap] bytes is undefined. *)
Definition strlcpy (cap : nat) (dst src : string) (size : nat)
  : option (string * nat) :=
  match size with
  | O => Some (dst, String.length src)
  | S k =>
      let copied := str_take k src in
      if decide (String.length copied < cap)
      then Some (copied, String.length src)
      else None
  end.

(** ** The libc calls file_utils.c makes

    Each call first consults the fault schedule; left alone, it acts on the
    file store the way POSIX describes for regular files.  Calls returning
    [int] return a [Z] ([-1] on failure, [EOF = -1] for fclose); calls
    returning a pointer return an [option] ([None] is [NULL]). *)
Module Libc.

Definition syscall_index (k : syscall) : nat :=
  match k with
  | SYS_access => 0 | SYS_open => 1 | SYS_fdopen => 2 | SYS_fopen => 3
  | SYS_fseek => 4 | SYS_ftell => 5 | SYS_malloc => 6 | SYS_fread => 7
  | SYS_fwrite => 8 | SYS_fclose => 9 | SYS_rename => 10 | SYS_unlink => 11
  | SYS_stat => 12 | SYS_chown => 13 | SYS_chmod => 14
  end.

Definition syscall_eqb (k k' : syscall) : bool :=
  Nat.eqb (syscall_index k) (syscall_index k').

(** Each call of [k] uses up the head of the schedule of [k]. *)
Definition consume (k : syscall) (w : World) : World :=
  with_sched (fun k' => if syscall_eqb k' k then tail (w_sched w k')
                        else w_sched w k') w.

Definition next_fault (k : syscall) : M (option fault) := fun w =>
  Some (head (w_sched w k), consume k w).

Definition fails (f : option fault) : option errno_t :=
  match f with
  | Some (Err e) => Some e
  | _ => None
  end.

Definition failing (k : syscall) : M (option errno_t) :=
  let* f := next_fault k in
  ret (fails f).

Definition fail_with {A} (e : errno_t) (r : A) : M A :=
  let* _ := set_errno e in ret r.

Definition new_stream (path : string) (pos : nat) : M nat := fun w =>
  let fd := fresh (dom (w_fds w)) in
  Some (fd, with_fds (insert fd (mkStream path pos)) w).

(** The stream behind a handle; using a closed handle is undefined. *)
Definition stream_of (fd : nat) : M Stream := fun w =>
  match w_fds w !! fd with
  | Some st => Some (st, w)
  | None => None
  end.

Definition drop_stream (fd : nat) : M unit := fun w =>
  match w_fds w !! fd with
  | Some _ => Some (tt, with_fds (delete fd) w)
  | None => None
  end.

(** [access(path, F_OK)] *)
Definition access (path : string) : M Z :=
  let* f := failing SYS_access in
  match f with
  | Some e => fail_with e (-1)%Z
  | None =>
      let* fs := gets w_fs in
      match fs !! path with
      | Some _ => ret 0%Z
      | None => fail_with ENOENT (-1)%Z
      end
  end.

Inductive open_flag := O_WRONLY | O_TRUNC | O_CREAT.

#[global] Instance open_flag_eq_dec : EqDecision open_flag.
Proof. solve_decision. Defined.

(** [open(path, flags, mode)]: a new file gets [mode & ~umask] and the
    effective ids of the process. *)
Definition open (path : string) (flags : list open_flag) (mode : Z) : M Z :=
  let* f := failing SYS_open in
  match f with
  | Some e => fail_with e (-1)%Z
  | None =>
      let* fs := gets w_fs in
      let* cfg := gets w_cfg in
      match fs !! path with
      | Some file =>
          let* _ :=
            (if bool_decide (O_TRUNC ∈ flags)
             then modify (with_fs (insert path
                    (mkFile [] (st_uid file) (st_gid file) (st_mode file))))
             else ret tt) in
          let* fd := new_stream path 0 in
          ret (Z.of_nat fd)
      | None =>
          if bool_decide (O_CREAT ∈ flags)
          then
            let* _ := modify (with_fs (insert path
                        (mkFile [] (c_euid cfg) (c_egid cfg)
                                (Z.land mode (Z.lnot (c_umask cfg)))))) in
            let* fd := new_stream path 0 in
            ret (Z.of_nat fd)
          else fail_with ENOENT (-1)%Z
      end
  end.

(** [fdopen(fd, modes)]: the stream shares the descriptor [fd]. *)
Definition fdopen (fd : Z) : M (option nat) :=
  let* f := failing SYS_fdopen in
  match f with
  | Some e => fail_with e None
  | None =>
      let* _ := stream_of (Z.to_nat fd) in
      ret (Some (Z.to_nat fd))
  end.

Definition close (fd : Z) : M Z :=
  let* _ := drop_stream (Z.to_nat fd) in
  ret 0%Z.

(** [fopen(path, "rb")] *)
Definition fopen_rb (path : string) : M (option nat) :=
  let* f := failing SYS_fopen in
  match f with
  | Some e => fail_with e None
  | None =>
      let* fs := gets w_fs in
      match fs !! path with
      | Some _ => let* fd := new_stream path 0 in ret (Some fd)
      | None => fail_with ENOENT None
      end
  end.

(** [fclose]: the descriptor is released even when the call reports EOF. *)
Definition fclose (stream : nat) : M Z :=
  let* _ := drop_stream stream in
  let* f := failing SYS_fclose in
  match f with
  | Some e => fail_with e (-1)%Z
  | None => ret 0%Z
  end.

Inductive whence := SEEK_SET | SEEK_END.

Definition fseek (stream : nat) (offset : Z) (wh : whence) : M Z :=
  let* st := stream_of stream in
  let* f := failing SYS_fseek in
  match f with
  | Some e => fail_with e (-1)%Z
  | None =>
      let* fs := gets w_fs in
      match fs !! s_path st with
      | None => fail_with EIO (-1)%Z
      | Some file =>
          let target :=
            match wh with
            | SEEK_SET => offset
            | SEEK_END => (Z.of_nat (length (f_data file)) + offset)%Z
            end in
          if decide (target < 0)%Z then fail_with EIO (-1)%Z
          else
            let* _ := modify (with_fds (insert stream
                        (mkStream (s_path st) (Z.to_nat target)))) in
            ret 0%Z
      end
  end.

(** [ftell]: a position that a [long] cannot hold is an EOVERFLOW. *)
Definition ftell (stream : nat) : M Z :=
  let* st := stream_of stream in
  let* f := failing SYS_ftell in
  match f with
  | Some e => fail_with e (-1)%Z
  | None =>
      if decide (Z.of_nat (s_pos st) <= LONG_MAX)%Z
      then ret (Z.of_nat (s_pos st))
      else fail_with EOVERFLOW (-1)%Z
  end.

(** [malloc(size)], [size] being a [size_t]: no allocator serves more than
    PTRDIFF_MAX bytes. *)
Definition malloc (size : Z) : M (option nat) :=
  let* f := failing SYS_malloc in
  match f with
  | Some e => fail_with e None
  | None =>
      if decide (PTRDIFF_MAX < size)%Z then fail_with ENOMEM None
      else
        let* heap := gets w_heap in
        let p := fresh heap in
        let* _ := modify (with_heap (fun h => {[ p ]} ∪ h)) in
        ret (Some p)
  end.

(** [free(ptr)]: freeing what is not live is undefined. *)
Definition free (ptr : nat) : M unit := fun w =>
  if decide (ptr ∈ w_heap w)
  then Some (tt, with_heap (fun h => h ∖ {[ ptr ]}) w)
  else None.

(** How many of [want] items a transfer moves under fault [f]. *)
Definition transferred (f : option fault) (want : nat) : nat :=
  match f with
  | None => want
  | Some (Err _) => 0
  | Some (Partial n _) => min n want
  end.

Definition fault_errno (f : option fault) : option errno_t :=
  match f with
  | None => None
  | Some (Err e) => Some e
  | Some (Partial _ e) => Some e
  end.

(** [fread(buf, 1, nmemb, stream)]: the item count and the bytes stored. *)
Definition fread (nmemb : Z) (stream : nat) : M (Z * list byte) :=
  if decide (nmemb < 0)%Z then undefined
  else
    let* st := stream_of stream in
    let* f := next_fault SYS_fread in
    let* fs := gets w_fs in
    match fs !! s_path st with
    | None => fail_with EIO (0%Z, [])
    | Some file =>
        let avail := drop (s_pos st) (f_data file) in
        let got := take (transferred f (Z.to_nat nmemb)) avail in
        let* _ := modify (with_fds (insert stream
                    (mkStream (s_path st) (s_pos st + length got)))) in
        let* _ := (match fault_errno f with
                   | Some e => set_errno e
                   | None => ret tt
                   end) in
        ret (Z.of_nat (length got), got)
    end.

(** [fwrite(data, 1, nmemb, stream)]: [data] is the caller's buffer; asking
    for more items than it holds reads past its end, and so does a negative
    [long] count, which converts to a huge [size_t]. *)
Definition fwrite (data : list byte) (nmemb : Z) (stream : nat) : M Z :=
  if decide (nmemb < 0 ∨ Z.of_nat (length data) < nmemb)%Z then undefined
  else
    let* st := stream_of stream in
    let* f := next_fault SYS_fwrite in
    let* fs := gets w_fs in
    match fs !! s_path st with
    | None => fail_with EIO 0%Z
    | Some file =>
        let put := take (transferred f (Z.to_nat nmemb)) data in
        let old := f_data file in
        let new := (take (s_pos st) old ++ put
                    ++ drop (s_pos st + length put) old)%list in
        let* _ := modify (with_fs (insert (s_path st)
                    (mkFile new (st_uid file) (st_gid file) (st_mode file)))) in
        let* _ := modify (with_fds (insert stream
                    (mkStream (s_path st) (s_pos st + length put)))) in
        let* _ := (match fault_errno f with
                   | Some e => set_errno e
                   | None => ret tt
                   end) in
        ret (Z.of_nat (length put))
    end.

(** [rename(old, new)]: atomic within one filesystem, EXDEV across two. *)
Definition rename (old new : string) : M Z :=
  let* f := failing SYS_rename in
  match f with
  | Some e => fail_with e (-1)%Z
  | None =>
      let* fs := gets w_fs in
      let* cfg := gets w_cfg in
      match fs !! old with
      | None => fail_with ENOENT (-1)%Z
      | Some file =>
          if decide (c_mount cfg old = c_mount cfg new)
          then
            let* _ := modify (with_fs (fun m => <[new := file]> (delete old m))) in
            ret 0%Z
          else fail_with EXDEV (-1)%Z
      end
  end.

Definition unlink (path : string) : M Z :=
  let* f := failing SYS_unlink in
  match f with
  | Some e => fail_with e (-1)%Z
  | None =>
      let* fs := gets w_fs in
      match fs !! path with
      | None => fail_with ENOENT (-1)%Z
      | Some _ =>
          let* _ := modify (with_fs (delete path)) in
          ret 0%Z
      end
  end.

(** [stat(path, &info)]: [None] stands for the return value -1. *)
Definition stat (path : string) : M (option File) :=
  let* f := failing SYS_stat in
  match f with
  | Some e => fail_with e None
  | None =>
      let* fs := gets w_fs in
      match fs !! path with
      | None => fail_with ENOENT None
      | Some file => ret (Some file)
      end
  end.

Definition chown (path : string) (uid gid : Z) : M Z :=
  let* f := failing SYS_chown in
  match f with
  | Some e => fail_with e (-1)%Z
  | None =>
      let* fs := gets w_fs in
      match fs !! path with
      | None => fail_with ENOENT (-1)%Z
      | Some file =>
          let* _ := modify (with_fs (insert path
                      (mkFile (f_data file) uid gid (st_mode file)))) in
          ret 0%Z
      end
  end.

Definition chmod (path : string) (mode : Z) : M Z :=
  let* f := failing SYS_chmod in
  match f with
  | Some e => fail_with e (-1)%Z
  | None =>
      let* fs := gets w_fs in
      match fs !! path with
      | None => fail_with ENOENT (-1)%Z
      | Some file =>
          let* _ := modify (with_fs (insert path
                      (mkFile (f_data file) (st_uid file) (st_gid file) mode))) in
          ret 0%Z
      end
  end.

(** What [realpath] resolves [path] to: the answer of the environment when
    it is a C string that fits a buffer of PATH_MAX bytes. *)
Definition resolve `{Platform} (w : World) (path : string) : option string :=
  match c_realpath (w_cfg w) path with
  | None => None
  | Some r =>
      if is_c_string r && bool_decide (String.length r < PATH_MAX)
      then Some r else None
  end.

(** [realpath(path, resolved)] with [resolved] a buffer of PATH_MAX bytes:
    a resolution that does not fit fails with ENAMETOOLONG. *)
Definition realpath `{Platform} (path : string) : M (option string) :=
  let* r := gets (fun w => resolve w path) in
  match r with
  | Some r => ret (Some r)
  | None =>
      let* cfg := gets w_cfg in
      match c_realpath cfg path with
      | None => fail_with ENOENT None
      | Some _ => fail_with ENAMETOOLONG None
      end
  end.

End Libc.

(** ** file_utils.c *)

(** A buffer obtained from malloc: its address and the bytes it holds. *)
Record Buffer := mkBuffer {
  b_ptr : nat;
  b_bytes : list byte
}.

Definition EOF : Z := (-1)%Z.

(** Modelled from the spec: FOPEN_FLAGS_W is a macro of file_utils.h, which
    is not part of the sources at hand; the spec says that write "creates
    (or truncates) the file with fixed mode bits". *)
Definition FOPEN_FLAGS_W : list Libc.open_flag :=
  [Libc.O_WRONLY; Libc.O_TRUNC; Libc.O_CREAT].

Section file_utils.
Context `{Platform}.

Definition file_exists (filename : string) : M bool :=
  let* r := Libc.access filename in
  let exists_ := negb (r =? -1)%Z in
  let* errno := gets w_errno in
  if negb exists_ && bool_decide (errno ≠ None)
  then
    let* _ :=
      (if bool_decide (errno ≠ Some ENOENT) && bool_decide (errno ≠ Some ENOTDIR)
       then log_error "Failed to check if file %s exists: %m"
       else ret tt) in
    ret false
  else ret exists_.

Definition fopen_with_umask (filePath : string)
    (flags : list Libc.open_flag) (umask : Z) : M (option nat) :=
  let* fileDescriptor := Libc.open filePath flags umask in
  if decide (fileDescriptor = -1)%Z
  then
    let* _ := log_error "Failed to open file %s: %m" in
    ret None
  else
    let* fileStream := Libc.fdopen fileDescriptor in
    let* _ :=
      (match fileStream with
       | None =>
           let* _ := log_error "Failed to open file %s: %m" in
           let* _ := Libc.close fileDescriptor in
           ret tt
       | Some _ => ret tt
       end) in
    ret fileStream.

Definition fopen_read_only (filePath : string) : M (option nat) :=
  Libc.fopen_rb filePath.

Definition write_file (data : list byte) (fileSize : Z) (filePath : string)
  : M bool :=
  let* fileStream := fopen_with_umask filePath FOPEN_FLAGS_W 420%Z (* 0644 *) in
  match fileStream with
  | None => ret false
  | Some fileStream =>
      let* n := Libc.fwrite data fileSize fileStream in
      if decide (n < fileSize)%Z
      then
        let* _ := log_error "Failed to write file %s: %m" in
        let* _ := Libc.fclose fileStream in
        ret false
      else
        let* r := Libc.fclose fileStream in
        if decide (r = EOF)
        then
          let* _ := log_error "Failed to write file %s" in
          ret false
        else ret true
  end.

(** The result stands for the [bool] and the two out-parameters: [None] is
    [false], [Some (contents, fileSize)] is [true]. *)
Definition read_file_internal (fileStream : nat) (filePath : string)
  : M (option (Buffer * Z)) :=
  let* r := Libc.fseek fileStream 0 Libc.SEEK_END in
  if decide (r ≠ 0)%Z
  then
    let* _ := log_error "Failed to read file %s: %m" in
    let* _ := Libc.fclose fileStream in
    ret None
  else
    let* fileSize := Libc.ftell fileStream in
    if decide (fileSize < 0)%Z
    then
      let* _ := log_error "Failed to read file %s: %m" in
      let* _ := Libc.fclose fileStream in
      ret None
    else
      let* r := Libc.fseek fileStream 0 Libc.SEEK_SET in
      if decide (r ≠ 0)%Z
      then
        let* _ := log_error "Failed to read file %s: %m" in
        let* _ := Libc.fclose fileStream in
        ret None
      else
        let* data := Libc.malloc (size_t_of_long (long_wrap (fileSize + 1))) in
        match data with
        | None =>
            let* _ := log_error "Failed to allocate %ld bytes" in
            let* _ := log_error "ALLOCATION_FAILED_ERROR" in
            let* _ := Libc.fclose fileStream in
            ret None
        | Some data =>
            let* (n, bytes) := Libc.fread fileSize fileStream in
            if decide (n < fileSize)%Z
            then
              let* _ := log_error "Failed to read file %s: %m" in
              let* _ := Libc.fclose fileStream in
              let* _ := Libc.free data in
              ret None
            else
              let* r := Libc.fclose fileStream in
              if decide (r = EOF)
              then
                let* _ := log_error "Failed to read file %s" in
                let* _ := Libc.free data in
                ret None
              else
                ret (Some (mkBuffer data (bytes ++ [x00])%list, fileSize))
        end.

Definition read_file (filePath : string) : M (option (Buffer * Z)) :=
  let* fileStream := fopen_read_only filePath in
  match fileStream with
  | None =>
      let* _ := log_error "Failed to open file %s: %m" in
      ret None
  | Some fileStream => read_file_internal fileStream filePath
  end.

Definition file_is_empty (filename : string) : M bool :=
  let* ex := file_exists filename in
  if ex
  then
    let* r := read_file filename in
    match r with
    | None => ret false
    | Some (fileContents, fileSize) =>
        if decide (fileSize = 0)%Z then ret true else ret false
    end
  else ret false.

Definition unlink_file (filename : string) : M bool :=
  let* r := Libc.unlink filename in
  if decide (r = -1)%Z
  then
    let* errno := gets w_errno in
    if bool_decide (errno ≠ Some ENOENT) && bool_decide (errno ≠ Some ENOTDIR)
    then
      let* _ := log_error "Failed to remove file %s: %m" in
      ret false
    else ret true
  else ret true.

Definition duplicate_file (sourcePath destinationPath : string) : M bool :=
  let* r := read_file sourcePath in
  match r with
  | None => ret false
  | Some (fileContents, fileSize) =>
      let* ex := file_exists destinationPath in
      if ex
      then
        let* _ := log_error
          "Failed to duplicate, destination file already exists : %s" in
        ret false
      else
        let* written := write_file (b_bytes fileContents) fileSize
                                   destinationPath in
        let foundError := negb written in
        let* _ := Libc.free (b_ptr fileContents) in
        if foundError then ret false
        else
          let* st := Libc.stat sourcePath in
          let* foundError :=
            (match st with
             | None =>
                 let* _ := log_error
                   "Failed to get ownership and file permissions on %s" in
                 ret true
             | Some sourceFileStat =>
                 let* r := Libc.chown destinationPath
                             (st_uid sourceFileStat) (st_gid sourceFileStat) in
                 let* foundError :=
                   (if decide (r ≠ 0)%Z
                    then
                      let* _ := log_error
                        "Failed to set user and group id on %s" in
                      ret true
                    else ret foundError) in
                 let* r := Libc.chmod destinationPath
                             (st_mode sourceFileStat) in
                 if decide (r ≠ 0)%Z
                 then
                   let* _ := log_error
                     "Failed to set file permissions on %s" in
                   ret true
                 else ret foundError
             end) in
          if foundError
          then
            let* _ := unlink_file destinationPath in
            ret false
          else ret true
  end.

Definition move_file (sourcePath destinationPath : string) : M bool :=
  if decide (strncmp sourcePath destinationPath MAXPGPATH = 0)%Z
  then
    let* _ := log_warn
      "Source and destination are the same %s, nothing to move." in
    ret true
  else
    let* ex := file_exists sourcePath in
    if negb ex
    then
      let* _ := log_error
        "Failed to move file, source file %s does not exist." in
      ret false
    else
      let* ex := file_exists destinationPath in
      if ex
      then
        let* _ := log_error
          "Failed to move file, destination file %s already exists." in
        ret false
      else
        let* r := Libc.rename sourcePath destinationPath in
        if decide (r = 0)%Z then ret true
        else
          let* errno := gets w_errno in
          if bool_decide (errno ≠ Some EXDEV)
          then
            let* _ := log_error "Failed to move file %s to %s: %m" in
            ret false
          else
            let* ok := duplicate_file sourcePath destinationPath in
            if negb ok
            then
              let* _ := log_error "Canceling file move due to errors." in
              ret false
            else
              let* _ := unlink_file sourcePath in
              ret true.

(** *** Searching PATH *)

(** [SearchPath]: [matches] is the fixed array of the struct (its length is
    the capacity), [found] the number of valid entries. *)
Record SearchPath := mkSearchPath {
  found : nat;
  matches : list string
}.

(** [get_env_copy] is defined in env_utils.c, which is not part of the
    sources at hand: what it delivers for a variable and a buffer size is a
    parameter of the environment, [None] standing for [false]. *)
Definition get_env_copy (name : string) (capacity : nat) : M (option string) :=
  gets (fun w => c_get_env_copy (w_cfg w) name capacity).

Definition IS_PATH_VAR_SEP (ch : ascii) : bool := bool_decide (ch = ":"%char).

(** The offset of the first separator of [pathlist], [None] for [NULL]. *)
Fixpoint first_path_var_separator (pathlist : string) : option nat :=
  match pathlist with
  | EmptyString => None
  | String ch rest =>
      if IS_PATH_VAR_SEP ch then Some 0
      else S <$> first_path_var_separator rest
  end.

Fixpoint str_drop (n : nat) (s : string) : string :=
  match n, s with
  | S n', String _ r => str_drop n' r
  | _, _ => s
  end.

(** The values [path] takes in the loop of [search_path] once each separator
    has been overwritten with a terminator: the segments of [pathlist]. *)
Fixpoint path_var_segments (pathlist : string) : list string :=
  match pathlist with
  | EmptyString => [EmptyString]
  | String ch rest =>
      if IS_PATH_VAR_SEP ch then EmptyString :: path_var_segments rest
      else
        match path_var_segments rest with
        | seg :: segs => String ch seg :: segs
        | [] => [String ch EmptyString]
        end
  end.

(** [strlcpy(sp->matches[sp->found++], src, MAXPGPATH)]: a slot holds
    MAXPGPATH bytes; a slot past the end of the array is out of bounds. *)
Definition strlcpy_match (sp : SearchPath) (src : string)
  : option (SearchPath * nat) :=
  match matches sp !! found sp with
  | None => None
  | Some old =>
      match strlcpy MAXPGPATH old src MAXPGPATH with
      | None => None
      | Some (new, n) =>
          Some (mkSearchPath (S (found sp)) (<[found sp := new]> (matches sp)), n)
      end
  end.

(** One turn of the [while] loop of [search_path], [path] being a segment. *)
Definition search_path_probe (filename path : string) (result : SearchPath)
  : M SearchPath :=
  let candidate := canonicalize_path (join_path_components path filename) in
  let* ex := file_exists candidate in
  if ex
  then
    match strlcpy_match result candidate with
    | None => undefined
    | Some (result', _) => ret result'
    end
  else ret result.

Fixpoint search_path_loop (filename : string) (segments : list string)
    (result : SearchPath) : M SearchPath :=
  match segments with
  | [] => ret result
  | path :: rest =>
      let* result' := search_path_probe filename path result in
      search_path_loop filename rest result'
  end.

Definition search_path (filename : string) (result : SearchPath)
  : M (bool * SearchPath) :=
  let result := mkSearchPath 0 (matches result) in
  let* pathlist := get_env_copy "PATH" MAXPATHSIZE in
  match pathlist with
  | None => ret (false, result)
  | Some pathlist =>
      let* result' := search_path_loop filename (path_var_segments pathlist)
                                       result in
      ret (true, result')
  end.

(** The inner [for] loop: [steps] turns are left, starting at [dIndex]. *)
Fixpoint dedup_already_there (steps dIndex : nat) (dedup : SearchPath)
    (currentRealPath : string) : M bool :=
  match steps with
  | O => ret false
  | S steps' =>
      match matches dedup !! dIndex with
      | None => undefined
      | Some entry =>
          if decide (strcmp entry currentRealPath = 0)%Z
          then
            let* _ := log_debug "dedup: skipping %s" in
            ret true
          else dedup_already_there steps' (S dIndex) dedup currentRealPath
      end
  end.

(** The outer [for] loop: [steps] turns are left, starting at [rIndex].
    [bytesWritten] is the [int] that receives the [size_t] of [strlcpy]:
    the length of a resolved path, below PATH_MAX, itself an [int]. *)
Fixpoint dedup_loop (steps rIndex : nat) (results dedup : SearchPath)
  : M (bool * SearchPath) :=
  match steps with
  | O => ret (true, dedup)
  | S steps' =>
      match matches results !! rIndex with
      | None => undefined
      | Some currentPath =>
          let* resolved := Libc.realpath currentPath in
          match resolved with
          | None =>
              let* _ := log_error "Failed to normalize file name %s: %m" in
              ret (false, dedup)
          | Some currentRealPath =>
              let* alreadyThere :=
                dedup_already_there (found dedup) 0 dedup currentRealPath in
              if negb alreadyThere
              then
                match strlcpy_match dedup currentRealPath with
                | None => undefined
                | Some (dedup', bytesWritten) =>
                    if decide (MAXPGPATH <= bytesWritten)
                    then
                      let* _ := log_error
                        "Real path %s is %d bytes long, and pgcopydb is limited to handling paths of %d bytes long, maximum" in
                      ret (false, dedup')
                    else dedup_loop steps' (S rIndex) results dedup'
                end
              else dedup_loop steps' (S rIndex) results dedup
          end
      end
  end.

Definition search_path_deduplicate_symlinks (results dedup : SearchPath)
  : M (bool * SearchPath) :=
  let dedup := mkSearchPath 0 (matches dedup) in
  dedup_loop (found results) 0 results dedup.

(** *** Normalizing a file name *)

(** [dst] holds the text of the destination buffer before the call, and
    [size] is its stated size in bytes; the result carries its text after
    the call. *)
Definition normalize_filename (filename dst : string) (size : Z)
  : M (bool * string) :=
  let cap := Z.to_nat size in
  let* ex := file_exists filename in
  if ex
  then
    let* resolved := Libc.realpath filename in
    match resolved with
    | None =>
        let* _ := log_fatal "Failed to normalize file name %s: %m" in
        ret (false, dst)
    | Some realPath =>
        match strlcpy cap dst realPath (size_t_of_int size) with
        | None => undefined
        | Some (dst', n) =>
            if decide (size_t_of_int size <= n)
            then
              let* _ := log_fatal
                "Real path %s is %d bytes long, and pgcopydb is limited to handling paths of %d bytes long, maximum" in
              ret (false, dst')
            else ret (true, dst')
        end
    end
  else
    match strlcpy PATH_MAX EmptyString filename MAXPGPATH with
    | None => undefined
    | Some (realPath, _) =>
        match strlcpy cap dst realPath MAXPGPATH with
        | None => undefined
        | Some (dst', _) => ret (true, dst')
        end
    end.

End file_utils.

(** ** file_utils.c: further functions *)

(** The file type bits of [st_mode], from sys/stat.h, with the values
    Linux, the BSDs and macOS give them. *)
Definition S_IFMT : Z := 61440 (* 0170000 *).
Definition S_IFDIR : Z := 16384 (* 0040000 *).

(** The entry is a directory: its mode carries the directory type. *)
Definition is_directory (f : File) : Prop :=
  Z.land (st_mode f) S_IFMT = S_IFDIR.

(** [path] does not name a directory. *)
Definition no_directory (w : World) (path : string) : Prop :=
  forall f, w_fs w !! path = Some f -> ~ is_directory f.

Definition INT_MAX : Z := 2 ^ 31 - 1.

(** The line feed that ends one of the log messages. *)
Definition newline : string := String "010"%char EmptyString.

(** The number of slots of [SearchPath.matches], a constant of
    file_utils.h: a parameter, like the constants of [Platform]. *)
Class Header := {
  SEARCH_PATH_MATCHES : nat
}.

Module LibcMore.

Inductive open_flag := O_APPEND | O_RDWR | O_CREAT.

#[global] Instance open_flag_eq_dec : EqDecision open_flag.
Proof. solve_decision. Defined.

(** [open(path, flags, mode)] for the flags of append mode: no flag
    truncates, so an existing file keeps its bytes.  With O_APPEND every
    write lands at the end of the file; nothing else writes to the file
    in this world, so the stream stands at the end of the file from its
    opening on.  A directory cannot be opened for writing: EISDIR. *)
Definition open (path : string) (flags : list open_flag) (mode : Z) : M Z :=
  let* f := Libc.failing SYS_open in
  match f with
  | Some e => Libc.fail_with e (-1)%Z
  | None =>
      let* fs := gets w_fs in
      let* cfg := gets w_cfg in
      match fs !! path with
      | Some file =>
          if bool_decide (is_directory file)
          then Libc.fail_with EISDIR (-1)%Z
          else
            let pos := if bool_decide (O_APPEND ∈ flags)
                       then length (f_data file) else 0 in
            let* fd := Libc.new_stream path pos in
            ret (Z.of_nat fd)
      | None =>
          if bool_decide (O_CREAT ∈ flags)
          then
            let* _ := modify (with_fs (insert path
                        (mkFile [] (c_euid cfg) (c_egid cfg)
                                (Z.land mode (Z.lnot (c_umask cfg)))))) in
            let* fd := Libc.new_stream path 0 in
            ret (Z.of_nat fd)
          else Libc.fail_with ENOENT (-1)%Z
      end
  end.

End LibcMore.

(** Modelled from the spec: FOPEN_FLAGS_A is a macro of file_utils.h, which
    is not part of the sources at hand; the spec says of append that it has
    the contract of write, "opened in append mode instead of truncate". *)
Definition FOPEN_FLAGS_A : list LibcMore.open_flag :=
  [LibcMore.O_APPEND; LibcMore.O_RDWR; LibcMore.O_CREAT].

Section file_utils_more.
Context `{Platform} `{Header}.

Definition directory_exists (path : string) : M bool :=
  let* ex := file_exists path in
  if negb ex then ret false
  else
    let* info := Libc.stat path in
    match info with
    | None =>
        let* _ := log_error ("Failed to stat %s: %m" +:+ newline) in
        ret false
    | Some info =>
        let result := bool_decide (Z.land (st_mode info) S_IFMT = S_IFDIR) in
        ret result
    end.

(** [fopen_with_umask] as [append_to_file] calls it, with flags of append
    mode. *)
Definition fopen_with_umask_append (filePath : string)
    (flags : list LibcMore.open_flag) (umask : Z) : M (option nat) :=
  let* fileDescriptor := LibcMore.open filePath flags umask in
  if decide (fileDescriptor = -1)%Z
  then
    let* _ := log_error "Failed to open file %s: %m" in
    ret None
  else
    let* fileStream := Libc.fdopen fileDescriptor in
    let* _ :=
      (match fileStream with
       | None =>
           let* _ := log_error "Failed to open file %s: %m" in
           let* _ := Libc.close fileDescriptor in
           ret tt
       | Some _ => ret tt
       end) in
    ret fileStream.

Definition append_to_file (data : list byte) (fileSize : Z) (filePath : string)
  : M bool :=
  let* fileStream :=
    fopen_with_umask_append filePath FOPEN_FLAGS_A 420%Z (* 0644 *) in
  match fileStream with
  | None => ret false
  | Some fileStream =>
      let* n := Libc.fwrite data fileSize fileStream in
      if decide (n < fileSize)%Z
      then
        let* _ := log_error "Failed to write file %s: %m" in
        let* _ := Libc.fclose fileStream in
        ret false
      else
        let* r := Libc.fclose fileStream in
        if decide (r = EOF)
        then
          let* _ := log_error "Failed to write file %s" in
          ret false
        else ret true
  end.

Definition read_file_if_exists (filePath : string)
  : M (option (Buffer * Z)) :=
  let* fileStream := fopen_read_only filePath in
  match fileStream with
  | None =>
      let* errno := gets w_errno in
      let* _ :=
        (if bool_decide (errno ≠ Some ENOENT)
         then log_error "Failed to open file %s: %m"
         else ret tt) in
      ret None
  | Some fileStream => read_file_internal fileStream filePath
  end.

(** [result] holds the text of the caller's buffer, of MAXPGPATH bytes as
    the function asks for; the value returned carries its text after the
    call.  [paths] starts zeroed. *)
Definition search_path_first (filename result : string) (logLevel : log_level)
  : M (bool * string) :=
  let paths := mkSearchPath 0 (replicate SEARCH_PATH_MATCHES EmptyString) in
  let* (ok, paths) := search_path filename paths in
  if negb ok || (found paths =? 0)
  then
    let* _ := log_level_msg logLevel
                "Failed to find %s command in your PATH" in
    ret (false, result)
  else
    match matches paths !! 0 with
    | None => undefined
    | Some first =>
        match strlcpy MAXPGPATH result first MAXPGPATH with
        | None => undefined
        | Some (result', _) => ret (true, result')
        end
    end.

End file_utils_more.

(** *** The process title *)

(** The memory the process title lives in: a byte at each address. *)
Definition Memory := Z -> ascii.

Definition poke (m : Memory) (addr : Z) (c : ascii) : Memory :=
  fun a => if decide (a = addr) then c else m a.

Fixpoint poke_string (m : Memory) (addr : Z) (s : string) : Memory :=
  match s with
  | EmptyString => m
  | String c r => poke_string (poke m addr c) (addr + 1) r
  end.

(** The globals behind the process title: [ps_buffer] is the address of the
    area ([None] is NULL), [ps_buffer_size] its size in bytes. *)
Record PsStatus := mkPsStatus {
  ps_buffer : option Z;
  ps_buffer_size : Z;
  last_status_len : Z
}.

(** [pg_vsnprintf(str, count, fmt, args)] of PostgreSQL's src/port/snprintf.c,
    [text] being the expansion of [fmt] with [args]: as C99 has it, at most
    [count - 1] bytes of [text] are stored, then a terminator, and the
    length of [text] is returned.  A text whose length is no [int] is left
    out of the model. *)
Definition pg_vsnprintf (m : Memory) (str count : Z) (text : string)
  : option (Memory * Z) :=
  if decide (INT_MAX < Z.of_nat (String.length text))%Z then None
  else
    let stored := str_take (Z.to_nat (count - 1)) text in
    let m' :=
      if decide (count <= 0)%Z then m
      else poke (poke_string m str stored)
                (str + Z.of_nat (String.length stored)) Ascii.zero in
    Some (m', Z.of_nat (String.length text)).

(** [sformat(str, count, fmt, ...)]: [None] stands for a NULL [str] or
    [fmt]; [text] is what [fmt] expands to with the arguments given. *)
Definition sformat (m : Memory) (str : option Z) (count : Z)
    (fmt : option string) (text : string) : M (Memory * Z) :=
  match str, fmt with
  | Some str, Some _ =>
      match pg_vsnprintf m str count text with
      | None => undefined
      | Some (m', len) =>
          let* _ :=
            (if decide (count <= len)%Z
             then log_error
               "BUG: sformat needs %d bytes to expend format string %s, and a target string of %lu bytes only has been given."
             else ret tt) in
          ret (m', len)
      end
  | _, _ =>
      let* _ := log_error
        "BUG: sformat is called with a NULL target or format string" in
      ret (m, (-1)%Z)
  end.

(** The loop of [init_ps_buffer], on Linux: [argv] gives for each argument
    its address and the string found there; [steps] turns are left,
    starting at [i]. *)
Fixpoint init_ps_loop (steps i : nat) (argv : list (Z * string))
    (end_of_area : option Z) : option (option Z) :=
  match steps with
  | O => Some end_of_area
  | S steps' =>
      match argv !! i with
      | None => None
      | Some (arg, text) =>
          let adjacent :=
            match end_of_area with
            | Some e => bool_decide (e + 1 = arg)%Z
            | None => false
            end in
          let end_of_area' :=
            if (i =? 0) || adjacent
            then Some (arg + Z.of_nat (String.length text))%Z
            else end_of_area in
          init_ps_loop steps' (S i) argv end_of_area'
      end
  end.

(** [init_ps_buffer(argc, argv)]: the globals after the call, [None] when
    [argv] has fewer than [argc] entries. *)
Definition init_ps_buffer (ps : PsStatus) (argc : Z) (argv : list (Z * string))
  : option PsStatus :=
  match init_ps_loop (Z.to_nat argc) 0 argv None with
  | None => None
  | Some None => Some (mkPsStatus None 0 (last_status_len ps))
  | Some (Some end_of_area) =>
      match argv !! 0 with
      | None => None
      | Some (arg0, _) =>
          Some (mkPsStatus (Some arg0) (end_of_area - arg0)
                           (end_of_area - arg0))
      end
  end.

(** The padding loop of [set_ps_title]: [steps] bytes from [addr] on. *)
Fixpoint pad_title (steps : nat) (m : Memory) (addr : Z) : Memory :=
  match steps with
  | O => m
  | S steps' => pad_title steps' (poke m addr Ascii.zero) (addr + 1)
  end.

Definition set_ps_title (ps : PsStatus) (m : Memory) (title : string)
  : M Memory :=
  match ps_buffer ps with
  | None => ret m
  | Some buffer =>
      let* (m', n) :=
        sformat m (Some buffer) (ps_buffer_size ps) (Some "%s"%string) title in
      let i := (n mod 2 ^ 64)%Z (* size_t i = n *) in
      ret (pad_title (Z.to_nat (ps_buffer_size ps - i)) m' (buffer + i)%Z)
  end.

(** ** Specification vocabulary *)

(** [wp m Q w]: run from [w], [m] is defined and its result and final world
    satisfy [Q]. *)
Definition wp {A} (m : M A) (Q : A -> World -> Prop) (w : World) : Prop :=
  match m w with
  | Some (a, w') => Q a w'
  | None => False
  end.

(** The value a computation returns from [w], and the world it leaves. *)
Definition result {A} (m : M A) (w : World) : option A := fst <$> m w.

Definition final {A} (m : M A) (w : World) : World :=
  match m w with
  | Some (_, w') => w'
  | None => w
  end.

(** No fault is scheduled for call [k]. *)
Definition quiet (k : syscall) (w : World) : Prop := w_sched w k = [].

(** What every call of this layer preserves: the configuration, and the
    absence of scheduled faults. *)
Definition steps_to (w w' : World) : Prop :=
  w_cfg w' = w_cfg w /\ forall k, quiet k w -> quiet k w'.

(** The environment lets the calls of [read_file] through. *)
Definition read_quiet (w : World) : Prop :=
  quiet SYS_fopen w /\ quiet SYS_fseek w /\ quiet SYS_ftell w /\
  quiet SYS_malloc w /\ quiet SYS_fread w /\ quiet SYS_fclose w.

(** The environment lets the calls of [write_file] through. *)
Definition write_quiet (w : World) : Prop :=
  quiet SYS_open w /\ quiet SYS_fdopen w /\ quiet SYS_fwrite w /\
  quiet SYS_fclose w.

Definition on_disk (w : World) (path : string) : Prop :=
  is_Some (w_fs w !! path).

Section vocabulary.
Context `{Platform}.

(** The candidate [search_path] probes for the PATH segment [dir]. *)
Definition candidate (filename dir : string) : string :=
  canonicalize_path (join_path_components dir filename).

(** [path] resolves, to a real path that fits a slot of [SearchPath]. *)
Definition resolves_short (w : World) (path : string) : Prop :=
  exists real,
    Libc.resolve w path = Some real /\ String.length real < MAXPGPATH.

End vocabulary.

(** From the spec, section 4.5: "For each match in original order, resolve
    its canonical real path; if no prior kept entry has the same resolved
    real path string, keep the resolved string in the output set; otherwise
    skip it as a duplicate.  Every resolution failure is fatal to the whole
    operation." *)
Fixpoint spec_dedupe (resolve : string -> option string)
    (kept inputs : list string) : option (list string) :=
  match inputs with
  | [] => Some kept
  | path :: rest =>
      match resolve path with
      | None => None
      | Some real =>
          if bool_decide (real ∈ kept) then spec_dedupe resolve kept rest
          else spec_dedupe resolve (kept ++ [real]) rest
      end
  end.

(** ** A concrete environment for the examples

    MAXPGPATH as in PostgreSQL, PATH_MAX as on Linux; the two path.c
    functions are replaced by stand-ins that join with a slash and leave
    the result as it is. *)
Module Example.

Definition platform : Platform := {|
  MAXPGPATH := 1024;
  PATH_MAX := 4096;
  MAXPATHSIZE := 4096;
  join_path_components := fun head tail => (head +:+ "/" +:+ tail)%string;
  canonicalize_path := fun path => path
|}.

(** /bin is a symbolic link to /usr/bin; paths below /mnt live on a second
    filesystem. *)
Definition config : Config := {|
  c_mount := fun path => if String.prefix "/mnt/" path then 1 else 0;
  c_umask := 18 (* 022 *);
  c_euid := 1000;
  c_egid := 1000;
  c_realpath := fun path =>
    if decide (path = "/bin/tool"%string) then Some "/usr/bin/tool"%string
    else if decide (path = "/usr/bin/tool"%string) then Some "/usr/bin/tool"%string
    else None;
  c_get_env_copy := fun name capacity =>
    if decide (name = "PATH"%string) then Some "/bin:/opt:/usr/bin:"%string
    else None
|}.

Definition no_faults : syscall -> list fault := fun _ => [].

Definition faulty (k : syscall) (f : fault) : syscall -> list fault :=
  fun k' => if Libc.syscall_eqb k' k then [f] else [].

Definition tool : File := mkFile [x7f; x45; x4c; x46] 0 0 493 (* 0755 *).
Definition notes : File := mkFile [x68; x00; x69] 1000 100 384 (* 0600 *).
Definition empty : File := mkFile [] 1000 1000 420 (* 0644 *).

Definition store : gmap string File :=
  {[ "/bin/tool"%string := tool; "/usr/bin/tool"%string := tool;
     "/tmp/notes"%string := notes; "/tmp/empty"%string := empty ]}.

Definition world (sched : syscall -> list fault) : World :=
  mkWorld config store ∅ ∅ None sched [].

Fixpoint str_repeat (c : ascii) (n : nat) : string :=
  match n with
  | O => EmptyString
  | S n' => String c (str_repeat c n')
  end.

(** An empty [SearchPath], and one holding the two matches of "tool". *)
Definition slots : SearchPath :=
  mkSearchPath 0 (replicate 4 EmptyString).

Definition found_twice : SearchPath :=
  mkSearchPath 2 ["/bin/tool"; "/usr/bin/tool"; EmptyString; EmptyString]%string.

Definition calm : World := world no_faults.

Definition payload : list byte := [x01; x00; x02].

(** The world after [payload] has been written to /tmp/out. *)
Definition written : World :=
  final (write_file payload 3 "/tmp/out") calm.

(** A path of MAXPGPATH bytes, terminator not counted. *)
Definition long_path : string := str_repeat "a" 1024.

End Example.

(** The segments of a PATH value put back together, a separator between
    two of them. *)
Fixpoint join_path_var (segments : list string) : string :=
  match segments with
  | [] => EmptyString
  | [segment] => segment
  | segment :: rest => segment +:+ ":" +:+ join_path_var rest
  end.

(** The number of separators in a PATH value. *)
Fixpoint count_path_var_sep (pathlist : string) : nat :=
  match pathlist with
  | EmptyString => 0
  | String ch rest =>
      (if IS_PATH_VAR_SEP ch then 1 else 0) + count_path_var_sep rest
  end.

(** The [n] bytes of memory from [addr] on. *)
Fixpoint peek_string (n : nat) (m : Memory) (addr : Z) : string :=
  match n with
  | O => EmptyString
  | S n' => String (m addr) (peek_string n' m (addr + 1))
  end.

Fixpoint nul_bytes (n : nat) : string :=
  match n with
  | O => EmptyString
  | S n' => String Ascii.zero (nul_bytes n')
  end.

(** The arguments lie one after the other from [addr] on, each followed by
    its terminator: the layout the kernel gives [argv]. *)
Fixpoint contiguous_from (addr : Z) (argv : list (Z * string)) : Prop :=
  match argv with
  | [] => True
  | (arg, text) :: rest =>
      arg = addr /\
      contiguous_from (addr + Z.of_nat (String.length text) + 1) rest
  end.

(** The bytes the arguments take, terminators included. *)
Fixpoint argv_bytes (argv : list (Z * string)) : Z :=
  match argv with
  | [] => 0
  | (_, text) :: rest => Z.of_nat (String.length text) + 1 + argv_bytes rest
  end.

(** ** A second environment, for the further functions

    A spool directory, a log file, and a tool installed in two directories
    of PATH, none of them a symbolic link. *)
Module Sample.

Definition header : Header := {| SEARCH_PATH_MATCHES := 8 |}.

Definition spool : File := mkFile [] 0 0 16877 (* S_IFDIR | 0755 *).
Definition journal : File :=
  mkFile [x6f; x6b; x0a] 1000 1000 33188 (* S_IFREG | 0644 *).

Definition real_paths : list string :=
  ["/usr/local/bin/tool"; "/usr/bin/tool"; "/var/spool"]%string.

Definition config : Config := {|
  c_mount := fun path => if String.prefix "/mnt/" path then 1 else 0;
  c_umask := 18 (* 022 *);
  c_euid := 1000;
  c_egid := 1000;
  c_realpath := fun path =>
    if decide (path = "/bin/tool"%string) then Some "/usr/bin/tool"%string
    else if bool_decide (path ∈ real_paths) then Some path
    else None;
  c_get_env_copy := fun name capacity =>
    if decide (name = "PATH"%string)
    then Some "/usr/local/bin:/opt/bin:/usr/bin"%string
    else None
|}.

Definition store : gmap string File :=
  {[ "/var/spool"%string := spool; "/var/run.log"%string := journal;
     "/bin/tool"%string := Example.tool;
     "/usr/bin/tool"%string := Example.tool;
     "/usr/local/bin/tool"%string := Example.tool ]}.

Definition world (sched : syscall -> list fault) : World :=
  mkWorld config store ∅ ∅ None sched [].

Definition calm : World := world Example.no_faults.

(** Two distinct real paths, as [search_path] finds them. *)
Definition found_both : SearchPath :=
  mkSearchPath 2
    ["/usr/local/bin/tool"; "/usr/bin/tool"; EmptyString; EmptyString]%string.

(** The arguments of a process, one after the other from address 4096. *)
Definition argv : list (Z * string) :=
  [(4096, "pgcopydb"); (4105, "clone"); (4111, "--jobs")]%string%Z.

Definition ps_unset : PsStatus := mkPsStatus None 0 0.

(** The memory that holds [argv]. *)
Definition memory : Memory :=
  poke_string
    (poke_string (poke_string (fun _ => Ascii.zero) 4096 "pgcopydb")
                 4105 "clone")
    4111 "--jobs".

(** The title area [init_ps_buffer] finds for [argv]. *)
Definition ps_ready : PsStatus := mkPsStatus (Some 4096%Z) 21 21.

(** The world after an empty file has been written to /tmp/new. *)
Definition touched : World :=
  final (write_file [] 0 "/tmp/new") Example.calm.

(** The world after one more byte has been appended to /tmp/out. *)
Definition appended : World :=
  final (append_to_file [x21] 1 "/tmp/out") Example.written.

End Sample.

(** ** Rules of the weakest precondition *)

Lemma wp_ret {A} (a : A) Q w : Q a w -> wp (ret a) Q w.
Proof. done. Qed.

Lemma wp_bind {A B} (m : M A) (k : A -> M B) Q w :
  wp m (fun a w' => wp (k a) Q w') w -> wp (bind m k) Q w.
Proof. unfold wp, bind. destruct (m w) as [[a w']|]; done. Qed.

Lemma wp_mono {A} (m : M A) (Q Q' : A -> World -> Prop) w :
  wp m Q w -> (forall a w', Q a w' -> Q' a w') -> wp m Q' w.
Proof. unfold wp. destruct (m w) as [[a w']|]; auto. Qed.

Lemma wp_gets {A} (f : World -> A) Q w : Q (f w) w -> wp (gets f) Q w.
Proof. done. Qed.

Lemma wp_modify (f : World -> World) Q w : Q tt (f w) -> wp (modify f) Q w.
Proof. done. Qed.

Lemma wp_iff {A} (m : M A) Q w :
  wp m Q w <-> exists a w', m w = Some (a, w') /\ Q a w'.
Proof.
  unfold wp. destruct (m w) as [[a w']|]; split.
  - eauto.
  - intros (a0 & w0 & Heq & HQ). by inversion Heq; subst.
  - done.
  - intros (a0 & w0 & Heq & HQ). discriminate.
Qed.

Lemma wp_elim {A} (m : M A) Q w a w' :
  wp m Q w -> m w = Some (a, w') -> Q a w'.
Proof. unfold wp. intros Hwp Heq. by rewrite Heq in Hwp. Qed.

Lemma wp_next_fault k Q w :
  Q (head (w_sched w k)) (Libc.consume k w) -> wp (Libc.next_fault k) Q w.
Proof. done. Qed.

Lemma wp_failing k Q w :
  Q (Libc.fails (head (w_sched w k))) (Libc.consume k w) -> wp (Libc.failing k) Q w.
Proof. done. Qed.

Lemma wp_fail_with {A} e (r : A) Q w :
  Q r (with_errno (Some e) w) -> wp (Libc.fail_with e r) Q w.
Proof. done. Qed.

Lemma wp_log lvl msg Q w :
  Q tt (with_log (w_log w ++ [(lvl, msg)]) w) -> wp (log_level_msg lvl msg) Q w.
Proof. done. Qed.

Lemma wp_new_stream path pos Q w :
  Q (fresh (dom (w_fds w)))
    (with_fds (insert (fresh (dom (w_fds w))) (mkStream path pos)) w) ->
  wp (Libc.new_stream path pos) Q w.
Proof. done. Qed.

Lemma wp_stream_of fd st Q w :
  w_fds w !! fd = Some st -> Q st w -> wp (Libc.stream_of fd) Q w.
Proof. unfold wp, Libc.stream_of. by intros ->. Qed.

Lemma wp_drop_stream fd st Q w :
  w_fds w !! fd = Some st -> Q tt (with_fds (delete fd) w) ->
  wp (Libc.drop_stream fd) Q w.
Proof. unfold wp, Libc.drop_stream. by intros ->. Qed.

Lemma wp_free ptr Q w :
  ptr ∈ w_heap w -> Q tt (with_heap (fun h => h ∖ {[ ptr ]}) w) ->
  wp (Libc.free ptr) Q w.
Proof. unfold wp, Libc.free. intros Hin. by rewrite decide_True. Qed.


(** ** What every call leaves alone *)

Lemma steps_to_refl w : steps_to w w.
Proof. by split. Qed.

Lemma steps_to_trans w1 w2 w3 : steps_to w1 w2 -> steps_to w2 w3 -> steps_to w1 w3.
Proof. intros [H1 H2] [H3 H4]. split; [congruence | auto]. Qed.

Lemma quiet_fails k w : quiet k w -> Libc.fails (head (w_sched w k)) = None.
Proof. unfold quiet. by intros ->. Qed.

Lemma quiet_head k w : quiet k w -> head (w_sched w k) = None.
Proof. unfold quiet. by intros ->. Qed.

Lemma fresh_fd_free (fds : gmap nat Stream) : fds !! fresh (dom fds) = None.
Proof. apply not_elem_of_dom, is_fresh. Qed.

Ltac wcbn :=
  cbn [w_cfg w_fs w_fds w_heap w_errno w_sched w_log
       with_fs with_fds with_heap with_errno with_sched with_log
       Libc.consume Libc.syscall_eqb Libc.syscall_index Nat.eqb
       s_path s_pos f_data st_uid st_gid st_mode b_ptr b_bytes
       fst snd] in *.

(** One step of symbolic execution. *)
Ltac wp_step :=
  lazymatch goal with
  | |- wp (bind _ _) _ _ => apply wp_bind
  | |- wp (ret _) _ _ => apply wp_ret
  | |- wp (gets _) _ _ => apply wp_gets
  | |- wp (modify _) _ _ => apply wp_modify
  | |- wp (set_errno _) _ _ => apply wp_modify
  | |- wp (log_error _) _ _ => apply wp_log
  | |- wp (log_warn _) _ _ => apply wp_log
  | |- wp (log_debug _) _ _ => apply wp_log
  | |- wp (log_fatal _) _ _ => apply wp_log
  | |- wp (Libc.failing _) _ _ => apply wp_failing
  | |- wp (Libc.next_fault _) _ _ => apply wp_next_fault
  | |- wp (Libc.fail_with _ _) _ _ => apply wp_fail_with
  | |- wp (Libc.new_stream _ _) _ _ => apply wp_new_stream
  end; wcbn.

Ltac solve_steps :=
  split;
  [ reflexivity
  | let k := fresh "k" in
    let Hq := fresh "Hq" in
    intros k Hq; unfold quiet in *; wcbn;
    destruct k; cbn; rewrite ?Hq; reflexivity ].

Ltac wp_lookup :=
  lazymatch goal with
  | |- wp (match _ !! _ with _ => _ end) _ _ =>
      first [ rewrite lookup_insert_eq
            | rewrite lookup_insert_ne by done
            | match goal with
              | H : w_fs ?w = _ |- context [w_fs ?w !! _] => rewrite H
              end ];
      wcbn
  end.

Ltac wp_case :=
  lazymatch goal with
  | |- wp (match decide ?P with _ => _ end) _ _ => destruct (decide P)
  | |- wp (match bool_decide ?P with _ => _ end) _ _ =>
      destruct (bool_decide_reflect P);
      try (exfalso;
           match goal with
           | Hnn : ~ (_ <> _) |- _ => apply Hnn; discriminate
           end)
  | |- wp (match ?x with _ => _ end) _ _ =>
      first [ match goal with H : x = _ |- _ => rewrite H end
            | destruct x eqn:? ]
  end; wcbn; try (exfalso; lia).

Ltac wp_stream :=
  rewrite ?Nat2Z.id;
  lazymatch goal with
  | |- wp (Libc.stream_of _) _ _ =>
      eapply wp_stream_of; [ wcbn; rewrite ?lookup_insert_eq; reflexivity | ]
  | |- wp (Libc.drop_stream _) _ _ =>
      eapply wp_drop_stream; [ wcbn; rewrite ?lookup_insert_eq; reflexivity | ]
  end; wcbn.

Ltac wp_free :=
  lazymatch goal with
  | |- wp (Libc.free _) _ _ =>
      eapply wp_free; [ wcbn; set_solver | ]
  end; wcbn.

Ltac fds_done := rewrite ?delete_insert_eq; apply delete_id, fresh_fd_free.

Ltac wp_run := repeat first [wp_step | wp_stream | wp_free | wp_lookup | wp_case].

Ltac wp_use lem :=
  lazymatch goal with
  | |- wp (bind _ _) _ _ => apply wp_bind
  | |- _ => idtac
  end;
  eapply wp_mono; [ apply lem | cbv beta ].

Ltac quiet_contra :=
  unfold quiet in *;
  repeat match goal with
         | Hq : w_sched _ _ = [] |- _ => rewrite Hq in *
         end;
  simpl in *; discriminate.

Section specs.
Context `{Platform}.

Lemma file_exists_spec p w :
  wp (file_exists p)
     (fun b w' =>
        w_fs w' = w_fs w /\ w_fds w' = w_fds w /\ w_heap w' = w_heap w /\
        steps_to w w' /\
        (b = true -> is_Some (w_fs w !! p)) /\
        (quiet SYS_access w -> is_Some (w_fs w !! p) -> b = true)) w.
Proof.
  unfold file_exists, Libc.access.
  repeat wp_step.
  destruct (Libc.fails (head (w_sched w SYS_access))) as [e|] eqn:Hf.
  - repeat wp_step.
    assert (Hs : steps_to w (with_errno (Some e) (Libc.consume SYS_access w)))
      by solve_steps.
    destruct e; cbn; repeat wp_step; split_and!; try done;
      intros Hq; by rewrite (quiet_fails _ _ Hq) in Hf.
  - repeat wp_step.
    destruct (w_fs w !! p) as [f|] eqn:Hp.
    + repeat wp_step.
      assert (Hs : steps_to w (Libc.consume SYS_access w)) by solve_steps.
      destruct (w_errno w); cbn; repeat wp_step; split_and!; eauto.
    + repeat wp_step. cbn. repeat wp_step.
      assert (Hs : steps_to w (with_errno (Some ENOENT) (Libc.consume SYS_access w)))
        by solve_steps.
      split_and!; try done.
Qed.

Lemma unlink_file_spec p w :
  wp (unlink_file p)
     (fun b w' =>
        w_fds w' = w_fds w /\ w_heap w' = w_heap w /\ steps_to w w' /\
        (w_fs w' = w_fs w \/ w_fs w' = delete p (w_fs w)) /\
        (quiet SYS_unlink w -> b = true /\ w_fs w' = delete p (w_fs w))) w.
Proof.
  unfold unlink_file, Libc.unlink.
  repeat first [wp_step | wp_case].
  all: split_and!; try done; try solve_steps; auto.
  all: try (intros Hq; quiet_contra).
  intros _. split; [done|]. by rewrite delete_id.
Qed.


Lemma take_not_short {A} (l : list A) n :
  ~ (Z.of_nat (length (take n l)) < Z.of_nat (length l))%Z -> take n l = l.
Proof. rewrite length_take. intros Hle. apply take_ge. lia. Qed.

Lemma heap_free_fresh (h : gset nat) : ({[ fresh h ]} ∪ h) ∖ {[ fresh h ]} = h.
Proof. pose proof (is_fresh h). set_solver. Qed.

Ltac znorm :=
  rewrite ?Z.add_0_r, ?Nat2Z.id, ?Z2Nat.inj_0, ?drop_0, ?Nat.add_0_l in *.

Lemma long_size_of_length (n : nat) :
  (Z.of_nat n < LONG_MAX)%Z ->
  size_t_of_long (long_wrap (Z.of_nat n + 1)) = (Z.of_nat n + 1)%Z.
Proof.
  unfold LONG_MAX, size_t_of_long, long_wrap. intros Hlt.
  rewrite (Z.mod_small (Z.of_nat n + 1 + 2 ^ 63)) by lia.
  rewrite Z.mod_small by lia. lia.
Qed.

Lemma read_file_spec p w :
  wp (read_file p)
     (fun r w' =>
        w_fs w' = w_fs w /\ w_fds w' = w_fds w /\ steps_to w w' /\
        match r with
        | None => w_heap w' = w_heap w
        | Some (buf, n) =>
            exists f, w_fs w !! p = Some f /\
                      b_bytes buf = (f_data f ++ [x00])%list /\
                      n = Z.of_nat (length (f_data f)) /\
                      (b_ptr buf ∉ w_heap w) /\
                      w_heap w' = {[ b_ptr buf ]} ∪ w_heap w
        end /\
        (read_quiet w ->
         (exists f, w_fs w !! p = Some f /\
                    (Z.of_nat (length (f_data f)) < LONG_MAX)%Z) ->
         is_Some r)) w.
Proof.
  unfold read_file, fopen_read_only, read_file_internal,
    Libc.fopen_rb, Libc.fseek, Libc.ftell, Libc.malloc, Libc.fread,
    Libc.fclose.
  wp_run.
  all: split_and!; try done; try solve_steps; try fds_done.
  all: try (intros (? & ? & ? & ? & ? & ?) ?; quiet_contra).
  all: try apply heap_free_fresh.
  all: znorm.
  all: try (eexists; split_and!; [done | | done | apply is_fresh | done];
            by rewrite take_not_short).
  all: intros (_ & _ & _ & _ & Hq & _) (f0 & Hf0 & Hlen);
    try discriminate; injection Hf0 as <-.
  all: try (rewrite long_size_of_length in * by done;
            unfold PTRDIFF_MAX, LONG_MAX in *; lia).
  all: try (unfold LONG_MAX in *; lia).
  rewrite (quiet_head _ _ Hq) in *. cbn in *.
  rewrite length_take in *. lia.
Qed.


Lemma transferred_le f m : Libc.transferred f m <= m.
Proof. destruct f as [[e|k e]|]; simpl; lia. Qed.

Lemma fwrite_not_short (data : list byte) f n :
  (0 <= n <= Z.of_nat (length data))%Z ->
  ~ (Z.of_nat (length (take (Libc.transferred f (Z.to_nat n)) data)) < n)%Z ->
  take (Libc.transferred f (Z.to_nat n)) data = take (Z.to_nat n) data.
Proof.
  intros Hn Hlt. pose proof (transferred_le f (Z.to_nat n)) as Hle.
  rewrite length_take in Hlt. f_equal. lia.
Qed.

Lemma write_file_spec data n p w :
  (0 <= n <= Z.of_nat (length data))%Z ->
  wp (write_file data n p)
     (fun b w' =>
        w_fds w' = w_fds w /\ w_heap w' = w_heap w /\ steps_to w w' /\
        (forall q, q <> p -> w_fs w' !! q = w_fs w !! q) /\
        (b = true ->
         exists f, w_fs w' = <[p := f]> (w_fs w) /\
                   f_data f = take (Z.to_nat n) data) /\
        (write_quiet w -> b = true)) w.
Proof.
  intros Hn.
  assert (Ht : bool_decide (Libc.O_TRUNC ∈ FOPEN_FLAGS_W) = true) by done.
  assert (Hc : bool_decide (Libc.O_CREAT ∈ FOPEN_FLAGS_W) = true) by done.
  unfold write_file, fopen_with_umask,
    Libc.open, Libc.fdopen, Libc.close, Libc.fwrite, Libc.fclose.
  wp_run.
  all: split_and!; try done; try solve_steps; try fds_done.
  all: try (intros (? & ? & ? & ?); quiet_contra).
  all: try (intros q Hq; by rewrite ?lookup_insert_ne by done).
  all: try (intros _; eexists; split; [apply insert_insert_eq|]; cbn;
            rewrite drop_nil, app_nil_r; by apply fwrite_not_short).
  all: intros (_ & _ & Hq & _); rewrite (quiet_head _ _ Hq) in *; cbn in *;
    rewrite length_take in *; lia.
Qed.

Lemma duplicate_file_spec a b w :
  wp (duplicate_file a b)
     (fun r w' =>
        w_fds w' = w_fds w /\ steps_to w w' /\
        (forall q, q <> b -> w_fs w' !! q = w_fs w !! q) /\
        (r = true -> w_heap w' = w_heap w) /\
        (r = true -> a <> b ->
         exists f, w_fs w !! a = Some f /\ w_fs w' = <[b := f]> (w_fs w)) /\
        (quiet SYS_access w -> is_Some (w_fs w !! b) ->
         r = false /\ w_fs w' = w_fs w) /\
        (quiet SYS_unlink w -> write_quiet w -> w_fs w !! b = None ->
         r = false -> w_fs w' = w_fs w)) w.
Proof.
  unfold duplicate_file.
  wp_use read_file_spec.
  intros [[buf n]|] w1 (Hfs1 & Hfds1 & Hs1 & Hr & _).
  2: { wp_step. split_and!; try done; intros; try split; congruence. }
  destruct Hr as (f & Ha & Hbytes & Hn & Hfresh & Hheap1).
  wp_use file_exists_spec.
  intros ex w2 (Hfs2 & Hfds2 & Hheap2 & Hs2 & Hex & Hex').
  rewrite Hfs1 in *. rewrite Hfds1 in *. rewrite Hheap1 in *.
  assert (Hs02 : steps_to w w2) by (by eapply steps_to_trans).
  destruct ex.
  { wp_run. split_and!; try done.
    all: try (eapply steps_to_trans; [exact Hs02 | solve_steps]).
    all: try (intros; congruence).
    all: try (intros; split; [done|congruence]).
    }
  assert (Hnot : quiet SYS_access w -> ~ is_Some (w_fs w !! b)).
  { intros Hq Hb. destruct Hs1 as [_ Hs1]. specialize (Hex' (Hs1 _ Hq) Hb). done. }
  apply wp_bind. eapply wp_mono.
  { apply write_file_spec. rewrite Hbytes, length_app. cbn. lia. }
  cbv beta.
  intros written w3 (Hfds3 & Hheap3 & Hs3 & Hfs3 & Hw & Hwq).
  rewrite Hfs2 in *. rewrite Hfds2 in *. rewrite Hheap2 in *.
  assert (Hs03 : steps_to w w3) by (by eapply steps_to_trans).
  wp_step. eapply wp_free; [rewrite Hheap3; set_solver|].
  destruct written; cbn [negb].
  2: { wp_step. wcbn. split_and!; try done.
       - intros Hq Hb. by destruct (Hnot Hq).
       - intros _ Hwq' _ _. destruct Hs02 as [_ Hs02].
         destruct Hwq' as (? & ? & ? & ?).
         discriminate Hwq. split_and!; by apply Hs02. }
  destruct Hw as (g & Hfs3' & Hg); [done|].
  clear Hfs3 Hwq.
  assert (Hdata : f_data g = f_data f).
  { rewrite Hg, Hbytes, Hn, Nat2Z.id. apply take_app_length. }
  pose (Q := fun (r : bool) (w' : World) =>
    w_fds w' = w_fds w3 /\ steps_to w3 w' /\
    (forall q, q <> b -> w_fs w' !! q = w_fs w !! q) /\
    (r = true -> w_heap w' = w_heap w /\
                 (a <> b -> w_fs w' = <[b := f]> (w_fs w))) /\
    (r = false -> quiet SYS_unlink w3 -> w_fs w' = delete b (w_fs w))).
  eapply (wp_mono _ Q); subst Q; cbv beta.
  2: { intros r w' (Hfds & Hs & Hframe & Hok & Hko). split_and!; try done.
       - congruence.
       - by eapply steps_to_trans.
       - intros Hr. by destruct (Hok Hr).
       - intros Hr Hab. exists f. split; [done|]. destruct (Hok Hr); auto.
       - intros Hq Hb. by destruct (Hnot Hq).
       - intros Hq _ Hb Hr. rewrite Hko; [by apply delete_id|done|].
         destruct Hs03 as [_ Hs03']. by apply Hs03'. }
  unfold Libc.stat, Libc.chown, Libc.chmod.
  assert (Hptr : (w_heap w3 ∖ {[b_ptr buf]}) = w_heap w)
    by (rewrite Hheap3; set_solver).
  destruct (decide (a = b)) as [->|Hab]; wp_run.
  all: try (wp_use unlink_file_spec;
            intros ? w4 (Hfds4 & Hheap4 & Hs4 & Hfs4 & Hq4); wcbn; wp_step).
  all: split_and!; try done; try solve_steps.
  all: try (eapply steps_to_trans; [|exact Hs4]; solve_steps).
  all: try (intros q Hq; destruct Hfs4 as [-> | ->]; rewrite ?Hfs3';
            by rewrite ?lookup_delete_ne, ?lookup_insert_ne by done).
  all: try (intros q Hq; rewrite ?Hfs3';
            by rewrite ?lookup_delete_ne, ?lookup_insert_ne by done).
  all: try (intros _ Hq; destruct Hq4 as [_ ->];
            [ unfold quiet in *; wcbn; exact Hq
            | rewrite ?Hfs3', ?delete_insert_eq; done ]).
  intros _. split; [done|]. intros _.
  rewrite Hfs3', !insert_insert_eq, Hdata. by destruct f.
Qed.

Lemma strncmp_refl s n : strncmp s s n = 0%Z.
Proof.
  revert s; induction n as [|n IH]; intros [|c r]; simpl; try done.
  case_decide; [apply IH | done].
Qed.

Lemma strncmp_neq a b n : strncmp a b n <> 0%Z -> a <> b.
Proof. intros Hne ->. by rewrite strncmp_refl in Hne. Qed.

Lemma move_file_spec a b w :
  strncmp a b MAXPGPATH <> 0%Z ->
  wp (move_file a b)
     (fun r w' =>
        w_fds w' = w_fds w /\ steps_to w w' /\
        (r = true -> w_heap w' = w_heap w) /\
        (r = true -> c_mount (w_cfg w) a <> c_mount (w_cfg w) b ->
         exists f, w_fs w !! a = Some f /\ w_fs w' !! b = Some f /\
                   (forall q, q <> a -> q <> b -> w_fs w' !! q = w_fs w !! q) /\
                   (quiet SYS_unlink w -> w_fs w' !! a = None)) /\
        (quiet SYS_access w -> is_Some (w_fs w !! b) ->
         r = false /\ w_fs w' = w_fs w)) w.
Proof.
  intros Hne. pose proof (strncmp_neq _ _ _ Hne) as Hab.
  unfold move_file. rewrite decide_False by done.
  wp_use file_exists_spec.
  intros ex1 w1 (Hfs1 & Hfds1 & Hheap1 & Hs1 & Hex1 & _).
  destruct ex1; cbn [negb].
  2: { wp_run. split_and!; try done.
       all: try (eapply steps_to_trans; [exact Hs1|solve_steps]).
       all: try congruence.
       all: try (intros; split; [done|congruence]). }
  wp_use file_exists_spec.
  intros ex2 w2 (Hfs2 & Hfds2 & Hheap2 & Hs2 & _ & Hex2).
  rewrite Hfs1, ?Hfds1, ?Hheap1 in *.
  assert (Hs02 : steps_to w w2) by (by eapply steps_to_trans).
  destruct ex2.
  { wp_run. split_and!; try done.
    all: try (eapply steps_to_trans; [exact Hs02|solve_steps]).
    all: try congruence.
    all: try (intros; split; [done|congruence]). }
  assert (Hnot : quiet SYS_access w -> ~ is_Some (w_fs w !! b)).
  { intros Hq Hb. destruct Hs1 as [_ Hs1]. specialize (Hex2 (Hs1 _ Hq) Hb). done. }
  assert (Hcfg : w_cfg w2 = w_cfg w) by (by destruct Hs02).
  pose (Q := fun (r : bool) (w' : World) =>
    w_fds w' = w_fds w2 /\ steps_to w2 w' /\
    (r = true -> w_heap w' = w_heap w) /\
    (r = true -> c_mount (w_cfg w) a <> c_mount (w_cfg w) b ->
     exists f, w_fs w !! a = Some f /\ w_fs w' !! b = Some f /\
       (forall q, q <> a -> q <> b -> w_fs w' !! q = w_fs w !! q) /\
       (quiet SYS_unlink w2 -> w_fs w' !! a = None))).
  eapply (wp_mono _ Q); subst Q; cbv beta.
  2: { intros r w' (Hfds & Hs & Hheap & Hok). split_and!; try done.
       - congruence.
       - by eapply steps_to_trans.
       - intros Hr Hm. destruct (Hok Hr Hm) as (f & ? & ? & ? & Hq).
         exists f. split_and!; try done. intros Hq'. apply Hq.
         destruct Hs02 as [_ Hs02']. by apply Hs02'.
       - intros Hq Hb. by destruct (Hnot Hq). }
  unfold Libc.rename.
  wp_run.
  all: try (wp_use duplicate_file_spec;
            intros ok w3 (Hfds3 & Hs3 & Hfs3 & Hheap3 & Hok3 & _); wcbn;
            destruct ok; cbn [negb]; wp_run;
            try (wp_use unlink_file_spec;
                 intros ? w4 (Hfds4 & Hheap4 & Hs4 & Hfs4 & Hq4); wcbn;
                 wp_step)).
  all: try assert (Hs23 : steps_to w2 w3)
    by (eapply steps_to_trans; [|exact Hs3]; solve_steps).
  all: split_and!; try done; try solve_steps; try congruence.
  all: try (by eapply steps_to_trans).
  all: try (eapply steps_to_trans; [exact Hs23|solve_steps]).
  all: try (intros _; rewrite Hheap4, Hheap3 by done; congruence).
  all: intros _ Hm; destruct (Hok3 eq_refl Hab) as (f' & Ha' & Hfs3');
    rewrite Hfs2 in *; exists f'.
  all: split_and!; try congruence.
  all: try (destruct Hfs4 as [-> | ->]; rewrite Hfs3';
            by rewrite ?lookup_delete_ne, ?lookup_insert_eq by done).
  all: try (intros q Hqa Hqb; destruct Hfs4 as [-> | ->]; rewrite Hfs3';
            by rewrite ?lookup_delete_ne, ?lookup_insert_ne by done).
  all: intros Hq; destruct Hq4 as [_ ->];
    [ by destruct Hs23 as [_ Hs23']; apply Hs23' | apply lookup_delete_eq ].
Qed.

End specs.

(** ** C strings *)

Lemma str_take_ge n s : String.length s <= n -> str_take n s = s.
Proof.
  revert n; induction s as [|c r IH]; intros [|n]; simpl; try done; try lia.
  intros Hle. f_equal. apply IH. lia.
Qed.

Lemma str_take_length n s : String.length (str_take n s) = min n (String.length s).
Proof.
  revert n; induction s as [|c r IH]; intros [|n]; simpl; try done.
  by rewrite IH.
Qed.

Lemma strlcpy_fits cap dst src size :
  String.length src < size -> String.length src < cap ->
  strlcpy cap dst src size = Some (src, String.length src).
Proof.
  intros Hsize Hcap. unfold strlcpy. destruct size as [|k]; [lia|].
  rewrite str_take_ge by lia. by rewrite decide_True.
Qed.

Lemma code_inj c1 c2 : code c1 = code c2 -> c1 = c2.
Proof.
  unfold code. intros Heq. apply Nat2Z.inj in Heq.
  rewrite <- (ascii_nat_embedding c1), <- (ascii_nat_embedding c2). by rewrite Heq.
Qed.

Lemma code_zero c : code c = 0%Z -> c = Ascii.zero.
Proof. intros Hc. apply code_inj. by rewrite Hc. Qed.

Lemma strcmp_eq a : forall b,
  is_c_string a = true -> is_c_string b = true ->
  strcmp a b = 0%Z <-> a = b.
Proof.
  induction a as [|c1 r1 IH]; intros [|c2 r2] Ha Hb; cbn [strcmp is_c_string] in *.
  - done.
  - apply andb_prop in Hb as [Hc _]. apply negb_true_iff, bool_decide_eq_false in Hc.
    split; [|done]. intros Hz. destruct Hc. apply code_zero. lia.
  - apply andb_prop in Ha as [Hc _]. apply negb_true_iff, bool_decide_eq_false in Hc.
    split; [|done]. intros Hz. destruct Hc. by apply code_zero.
  - apply andb_prop in Ha as [_ Ha]. apply andb_prop in Hb as [_ Hb].
    case_decide as Hc.
    + subst c2. rewrite (IH r2 Ha Hb). split; [by intros ->|by intros [=]].
    + split; [|by intros [=]]. intros Hz. destruct Hc. apply code_inj. lia.
Qed.

(** ** Paths *)

Section path.
Context `{Platform}.

Lemma normalize_filename_absent filename dst size w :
  w_fs w !! filename = None ->
  String.length filename < MAXPGPATH ->
  MAXPGPATH <= PATH_MAX ->
  (Z.of_nat (String.length filename) < size)%Z ->
  wp (normalize_filename filename dst size)
     (fun r w' => r = (true, filename) /\ w_fs w' = w_fs w) w.
Proof.
  intros Habs Hlen Hmax Hsize. unfold normalize_filename.
  wp_use file_exists_spec.
  intros ex w1 (Hfs1 & _ & _ & _ & Hex & _).
  destruct ex.
  { destruct Hex as [? Hex]; [done|]. congruence. }
  rewrite strlcpy_fits by lia. rewrite strlcpy_fits by lia.
  by wp_step.
Qed.

(** *** search_path *)


Lemma take_insert_snoc {A} (l : list A) i x :
  i < length l -> take (S i) (<[i := x]> l) = take i l ++ [x].
Proof.
  revert i; induction l as [|y l IH]; intros [|i] Hlt; simpl in *; try lia; try done.
  f_equal. apply IH. lia.
Qed.

Lemma strlcpy_match_fits sp src :
  found sp < length (matches sp) -> String.length src < MAXPGPATH ->
  strlcpy_match sp src =
    Some (mkSearchPath (S (found sp)) (<[found sp := src]> (matches sp)),
          String.length src).
Proof.
  intros Hcap Hlen. unfold strlcpy_match.
  destruct (lookup_lt_is_Some_2 _ _ Hcap) as [old ->].
  by rewrite strlcpy_fits.
Qed.

Lemma search_path_loop_spec filename segments : forall result w,
  quiet SYS_access w ->
  let kept := filter (on_disk w) (candidate filename <$> segments) in
  Forall (fun c => String.length c < MAXPGPATH) kept ->
  found result + length kept <= length (matches result) ->
  wp (search_path_loop filename segments result)
     (fun out w' =>
        w_fs w' = w_fs w /\ w_fds w' = w_fds w /\ w_heap w' = w_heap w /\
        steps_to w w' /\
        found out = found result + length kept /\
        length (matches out) = length (matches result) /\
        take (found out) (matches out) =
          take (found result) (matches result) ++ kept) w.
Proof.
  induction segments as [|dir rest IH]; intros result w Hq kept Hfit Hcap.
  - subst kept. cbn [fmap list_fmap search_path_loop]. rewrite filter_nil.
    wp_step. split_and!; try done; try apply steps_to_refl.
    all: try (simpl; lia).
    by rewrite app_nil_r.
  - cbn [search_path_loop]. wp_step. unfold search_path_probe.
    fold (candidate filename dir).
    wp_use file_exists_spec.
    intros ex w1 (Hfs1 & Hfds1 & Hheap1 & Hs1 & Hex & Hex').
    assert (Hq1 : quiet SYS_access w1) by (destruct Hs1 as [_ Hs1]; by apply Hs1).
    assert (Hsame : filter (on_disk w1) (candidate filename <$> rest)
                    = filter (on_disk w) (candidate filename <$> rest)).
    { unfold on_disk. by rewrite Hfs1. }
    subst kept. cbn [fmap list_fmap] in *. 
    destruct ex.
    + assert (Hon : on_disk w (candidate filename dir)) by (by apply Hex).
      rewrite filter_cons_True in * by done. cbn [length] in *.
      apply Forall_cons in Hfit as [Hlen Hfit].
      rewrite strlcpy_match_fits by (done || lia).
      wp_step.
      eapply wp_mono.
      { apply IH; [done | by rewrite Hsame | rewrite Hsame; cbn; rewrite length_insert; lia ]. }
      cbv beta. cbn [found matches].
      intros out w2 (Hfs2 & Hfds2 & Hheap2 & Hs2 & Hfound & Hlen2 & Htake).
      rewrite Hsame in *. rewrite length_insert in *.
      split_and!; try congruence.
      * by eapply steps_to_trans.
      * lia.
      * rewrite Htake, take_insert_snoc by lia. by rewrite <- app_assoc.
    + assert (Hoff : ~ on_disk w (candidate filename dir)).
      { intros Hon. by specialize (Hex' Hq Hon). }
      rewrite filter_cons_False in * by done.
      wp_step.
      eapply wp_mono.
      { apply IH; [done | by rewrite Hsame | by rewrite Hsame ]. }
      cbv beta.
      intros out w2 (Hfs2 & Hfds2 & Hheap2 & Hs2 & Hfound & Hlen2 & Htake).
      rewrite Hsame in *.
      split_and!; try congruence. by eapply steps_to_trans.
Qed.

Lemma search_path_spec filename result w pathlist :
  c_get_env_copy (w_cfg w) "PATH" MAXPATHSIZE = Some pathlist ->
  quiet SYS_access w ->
  let kept := filter (on_disk w)
                (candidate filename <$> path_var_segments pathlist) in
  Forall (fun c => String.length c < MAXPGPATH) kept ->
  length kept <= length (matches result) ->
  wp (search_path filename result)
     (fun r w' =>
        fst r = true /\ found (snd r) = length kept /\
        take (found (snd r)) (matches (snd r)) = kept /\
        w_fs w' = w_fs w) w.
Proof.
  intros Henv Hq kept Hfit Hcap. unfold search_path, get_env_copy.
  wp_run.
  eapply wp_mono.
  { apply search_path_loop_spec; [done | exact Hfit | exact Hcap]. }
  cbv beta. cbn [found matches].
  intros out w' (Hfs & _ & _ & _ & Hfound & _ & Htake).
  wp_step. by split_and!.
Qed.

(** The segments are what the loop of [search_path] walks through:
    [first_path_var_separator] finds the end of the current one. *)
Lemma path_var_segments_loop pathlist :
  path_var_segments pathlist =
    match first_path_var_separator pathlist with
    | None => [pathlist]
    | Some sep =>
        str_take sep pathlist :: path_var_segments (str_drop (S sep) pathlist)
    end.
Proof.
  induction pathlist as [|ch rest IH]; [done|].
  cbn [path_var_segments first_path_var_separator].
  destruct (IS_PATH_VAR_SEP ch); [done|].
  rewrite IH. by destruct (first_path_var_separator rest).
Qed.

Lemma path_var_segments_nonempty pathlist : path_var_segments pathlist <> [].
Proof.
  destruct pathlist as [|ch rest]; [done|]. cbn [path_var_segments].
  destruct (IS_PATH_VAR_SEP ch); [done|].
  by destruct (path_var_segments rest).
Qed.

Lemma path_var_segments_trailing pathlist :
  path_var_segments (pathlist +:+ ":") =
    path_var_segments pathlist ++ [EmptyString].
Proof.
  induction pathlist as [|ch rest IH]; [done|].
  change (String ch rest +:+ ":")%string with (String ch (rest +:+ ":")).
  cbn [path_var_segments]. rewrite IH.
  destruct (IS_PATH_VAR_SEP ch); [done|].
  pose proof (path_var_segments_nonempty rest).
  by destruct (path_var_segments rest).
Qed.

(** *** search_path_deduplicate_symlinks *)

Lemma realpath_spec path w :
  wp (Libc.realpath path)
     (fun r w' => r = Libc.resolve w path /\ w_fs w' = w_fs w /\
                  w_cfg w' = w_cfg w) w.
Proof.
  unfold Libc.realpath. wp_run; by split_and!.
Qed.

Lemma resolve_c_string w path r :
  Libc.resolve w path = Some r -> is_c_string r = true.
Proof.
  unfold Libc.resolve. destruct (c_realpath _ _) as [q|]; [|done].
  destruct (is_c_string q) eqn:Hq; simpl; [|done].
  case_bool_decide; [|done]. by intros [= <-].
Qed.

Lemma resolve_cfg w w' path :
  w_cfg w' = w_cfg w -> Libc.resolve w' path = Libc.resolve w path.
Proof. unfold Libc.resolve. by intros ->. Qed.

Lemma dedup_already_there_spec r dedup : forall steps dIndex w,
  dIndex + steps <= length (matches dedup) ->
  Forall (fun s => is_c_string s = true)
         (take steps (drop dIndex (matches dedup))) ->
  is_c_string r = true ->
  wp (dedup_already_there steps dIndex dedup r)
     (fun b w' =>
        b = bool_decide (r ∈ take steps (drop dIndex (matches dedup))) /\
        w_fs w' = w_fs w /\ w_cfg w' = w_cfg w) w.
Proof.
  induction steps as [|steps IH]; intros dIndex w Hlen Hcs Hr.
  - cbn [dedup_already_there take]. wp_step. by split_and!.
  - cbn [dedup_already_there].
    destruct (lookup_lt_is_Some_2 (matches dedup) dIndex) as [entry Hentry]; [lia|].
    rewrite Hentry. rewrite (drop_S _ _ _ Hentry) in *. cbn [take] in *.
    apply Forall_cons in Hcs as [Hentry_cs Hcs].
    destruct (decide (strcmp entry r = 0%Z)) as [Heq|Hneq].
    + apply strcmp_eq in Heq; [|done..]. subst entry.
      wp_run. split_and!; try done.
      symmetry. apply bool_decide_eq_true. apply elem_of_cons; by left.
    + eapply wp_mono; [apply IH; [lia|done..]|]. cbv beta.
      intros b w' (-> & ? & ?). split_and!; try done.
      apply bool_decide_ext. rewrite elem_of_cons.
      split; [auto|]. intros [->|?]; [|done].
      destruct Hneq. by apply strcmp_eq.
Qed.


Lemma strlcpy_match_defined sp src :
  found sp < length (matches sp) ->
  exists sp', strlcpy_match sp src = Some (sp', String.length src).
Proof.
  intros Hcap. unfold strlcpy_match, strlcpy.
  destruct (lookup_lt_is_Some_2 _ _ Hcap) as [old ->].
  destruct MAXPGPATH as [|k] eqn:Hk; [eauto|].
  rewrite decide_True; [eauto|]. rewrite str_take_length. lia.
Qed.

Lemma dedup_loop_spec results : forall steps rIndex dedup w,
  rIndex + steps <= length (matches results) ->
  found dedup + steps <= length (matches dedup) ->
  let kept := take (found dedup) (matches dedup) in
  let inputs := take steps (drop rIndex (matches results)) in
  Forall (fun s => is_c_string s = true) kept ->
  Forall (fun s => String.length s < MAXPGPATH) kept ->
  wp (dedup_loop steps rIndex results dedup)
     (fun r w' =>
        w_fs w' = w_fs w /\ w_cfg w' = w_cfg w /\
        (fst r = true <-> Forall (resolves_short w) inputs) /\
        (fst r = true ->
         spec_dedupe (Libc.resolve w) kept inputs =
           Some (take (found (snd r)) (matches (snd r))))) w.
Proof.
  induction steps as [|steps IH]; intros rIndex dedup w Hr Hd kept inputs Hcs Hshort.
  - subst inputs. cbn [dedup_loop take]. wp_step. by split_and!.
  - cbn [dedup_loop].
    destruct (lookup_lt_is_Some_2 (matches results) rIndex) as [path Hpath]; [lia|].
    rewrite Hpath. subst inputs. rewrite (drop_S _ _ _ Hpath). cbn [take spec_dedupe].
    wp_use realpath_spec. intros resolved w1 (-> & Hfs1 & Hcfg1).
    destruct (Libc.resolve w path) as [real|] eqn:Hres.
    2: { wp_run. split_and!; try done. split; [done|].
         intros Hall. apply Forall_cons in Hall as [(q & Hq & _) _]. congruence. }
    pose proof (resolve_c_string _ _ _ Hres) as Hreal.
    apply wp_bind. eapply wp_mono.
    { apply dedup_already_there_spec; [lia | by rewrite drop_0 | done]. }
    cbv beta. rewrite drop_0. fold kept.
    intros there w2 (-> & Hfs2 & Hcfg2).
    assert (Hcfg02 : w_cfg w2 = w_cfg w) by congruence.
    case_bool_decide as Hin; cbn [negb].
    + eapply wp_mono; [apply (IH (S rIndex) dedup w2); try done; lia|].
      cbv beta. fold kept.
      intros [ok out] w3 (Hfs3 & Hcfg3 & Hiff & Hspec). cbn [fst snd] in *.
      split_and!; try congruence.
      * rewrite Hiff. rewrite Forall_cons.
        assert (Hrs : resolves_short w path).
        { exists real. split; [done|]. by apply (proj1 (Forall_forall _ _) Hshort). }
        split; [intros Hall; split; [done|] | intros [_ Hall]].
        all: eapply Forall_impl; [exact Hall|].
        all: intros p (q & Hq & ?); exists q; split; [|done].
        all: by rewrite (resolve_cfg _ _ _ Hcfg02) in *.
      * intros Hok. rewrite <- (Hspec Hok). clear -Hcfg02.
        generalize kept. generalize (take steps (drop (S rIndex) (matches results))).
        induction l as [|p l IHl]; intros k; [done|]. cbn [spec_dedupe].
        rewrite (resolve_cfg _ _ _ Hcfg02). destruct (Libc.resolve w p); [|done].
        by rewrite !IHl.
    + destruct (strlcpy_match_defined dedup real) as [dedup' Hcopy]; [lia|].
      rewrite Hcopy.
      destruct (decide (MAXPGPATH <= String.length real)) as [Hlong|Hfits].
      * wp_run. split_and!; try done; try congruence. split; [done|].
        intros Hall. apply Forall_cons in Hall as [(q & Hq & ?) _].
        assert (q = real) by congruence. subst q. lia.
      * rewrite strlcpy_match_fits in Hcopy by lia. injection Hcopy as <-.
        eapply wp_mono.
        { apply (IH (S rIndex) _ w2); cbn [found matches].
          - lia.
          - rewrite length_insert. lia.
          - rewrite take_insert_snoc by lia. apply Forall_app. split; [done|].
            by apply Forall_singleton.
          - rewrite take_insert_snoc by lia. apply Forall_app. split; [done|].
            apply Forall_singleton. lia. }
        cbv beta. cbn [found matches]. rewrite take_insert_snoc by lia. fold kept.
        intros [ok out] w3 (Hfs3 & Hcfg3 & Hiff & Hspec). cbn [fst snd] in *.
        split_and!; try congruence.
        -- rewrite Hiff. rewrite Forall_cons.
           assert (Hrs : resolves_short w path).
           { exists real. split; [done|lia]. }
           split; [intros Hall; split; [done|] | intros [_ Hall]].
           all: eapply Forall_impl; [exact Hall|].
           all: intros p (q & Hq & ?); exists q; split; [|done].
           all: by rewrite (resolve_cfg _ _ _ Hcfg02) in *.
        -- intros Hok. rewrite <- (Hspec Hok). clear -Hcfg02.
           generalize (kept ++ [real]).
           generalize (take steps (drop (S rIndex) (matches results))).
           induction l as [|p l IHl]; intros k; [done|]. cbn [spec_dedupe].
           rewrite (resolve_cfg _ _ _ Hcfg02). destruct (Libc.resolve w p); [|done].
           by rewrite !IHl.
Qed.

End path.

(** ** The claims *)

Section claims.
Context `{Platform}.

(** C6.  [move_file a a] returns success for every path [a] and every world,
    also when [a] does not exist: the comparison of the two paths comes
    first, no libc call is made, and only the log grows. *)
Theorem move_file_same_path_is_noop (a : string) (w : World) :
  exists w',
    move_file a a w = Some (true, w') /\
    w_fs w' = w_fs w /\ w_fds w' = w_fds w /\ w_heap w' = w_heap w /\
    w_sched w' = w_sched w /\
    w_log w' = w_log w ++
      [(LOG_WARN, "Source and destination are the same %s, nothing to move."%string)].
Proof.
  unfold move_file. rewrite strncmp_refl, decide_True by done.
  eexists. split; [reflexivity|]. by split_and!.
Qed.

(** C10.  [unlink_file] returns failure exactly when [unlink] fails with an
    errno other than ENOENT and ENOTDIR; in particular, removing a path that
    is not there, which the environment does not otherwise disturb, is a
    success that leaves the file store as it was. *)
Theorem unlink_file_absent_is_success (filename : string) (w : World) :
  exists r w1 b w',
    Libc.unlink filename w = Some (r, w1) /\
    unlink_file filename w = Some (b, w') /\
    (b = false <->
     (r = -1)%Z /\ w_errno w1 <> Some ENOENT /\ w_errno w1 <> Some ENOTDIR) /\
    ((r = -1)%Z ->
     w_errno w1 = Some ENOENT \/ w_errno w1 = Some ENOTDIR -> b = true) /\
    (w_fs w !! filename = None -> quiet SYS_unlink w ->
     b = true /\ (r = -1)%Z /\ w_errno w1 = Some ENOENT /\ w_fs w' = w_fs w).
Proof.
  unfold unlink_file, Libc.unlink, Libc.failing, Libc.next_fault,
    Libc.fail_with, set_errno, log_error, log_level_msg, bind, ret, gets, modify.
  destruct (Libc.fails (head (w_sched w SYS_unlink))) as [e|] eqn:Hf; cbn.
  - destruct e; cbn; do 4 eexists; (split; [reflexivity|]);
      (split; [reflexivity|]); cbn; split_and!;
      try (intros _ Hq; rewrite (quiet_fails _ _ Hq) in Hf; discriminate);
      intuition congruence.
  - destruct (w_fs w !! filename) as [f|] eqn:Hp; cbn;
      do 4 eexists; (split; [reflexivity|]); (split; [reflexivity|]); cbn;
      split_and!; intuition congruence.
Qed.

(** C3.  Round trip: when [write_file B L p] succeeds, with [L] the length
    of [B] (possibly with NUL bytes inside; [L + 1] being a [long]), a
    following [read_file p] that the environment lets through succeeds and
    returns a buffer holding [B] followed by a terminator, with reported
    length [L]. *)
Theorem write_read_roundtrip (B : list byte) (L : Z) (p : string)
    (w w1 : World) :
  L = Z.of_nat (length B) ->
  (L < LONG_MAX)%Z ->
  write_file B L p w = Some (true, w1) ->
  read_quiet w1 ->
  exists buf w2,
    read_file p w1 = Some (Some (buf, L), w2) /\
    take (Z.to_nat L) (b_bytes buf) = B /\
    b_bytes buf = B ++ [x00] /\
    w_fs w2 = w_fs w1.
Proof.
  intros HL Hlong Hwrite Hquiet.
  assert (Hn : (0 <= L <= Z.of_nat (length B))%Z) by lia.
  pose proof (wp_elim _ _ _ _ _ (write_file_spec B L p w Hn) Hwrite)
    as (_ & _ & _ & _ & Hw & _).
  destruct Hw as (f & Hfs & Hdata); [done|].
  rewrite HL, Nat2Z.id, firstn_all in Hdata.
  assert (Hp : w_fs w1 !! p = Some f) by (rewrite Hfs; apply lookup_insert_eq).
  destruct (proj1 (wp_iff _ _ _) (read_file_spec p w1))
    as (r & w2 & Hread & Hfs2 & _ & _ & Hr & Hsome).
  destruct Hsome as [[buf n] ->];
    [done | exists f; split; [done | rewrite Hdata; lia] |].
  destruct Hr as (f' & Hp' & Hbytes & -> & _).
  assert (f' = f) by congruence. subst f'.
  rewrite Hdata in *. subst L.
  exists buf, w2. rewrite Hbytes. split_and!; try done.
  by rewrite Nat2Z.id, take_app_length.
Qed.


(** Where the buffered copy of [move_file] succeeds, the destination holds
    the bytes, owner, group and mode the source had, every other path is
    untouched, and the source is gone provided the final [unlink] is not
    refused. *)
Lemma move_file_across_filesystems (a b : string) (w w' : World) :
  strncmp a b MAXPGPATH <> 0%Z ->
  c_mount (w_cfg w) a <> c_mount (w_cfg w) b ->
  move_file a b w = Some (true, w') ->
  exists f,
    w_fs w !! a = Some f /\ w_fs w' !! b = Some f /\
    (forall q, q <> a -> q <> b -> w_fs w' !! q = w_fs w !! q) /\
    (quiet SYS_unlink w -> w_fs w' !! a = None) /\
    w_fds w' = w_fds w /\ w_heap w' = w_heap w.
Proof.
  intros Hne Hmount Hmove.
  pose proof (wp_elim _ _ _ _ _ (move_file_spec a b w Hne) Hmove)
    as (Hfds & _ & Hheap & Hok & _).
  destruct (Hok eq_refl Hmount) as (f & ? & ? & ? & ?).
  exists f. split_and!; auto.
Qed.

(** Where [duplicate_file] succeeds, the destination is a copy of the
    source: same bytes, owner, group and mode. *)
Lemma duplicate_file_copies (a b : string) (w w' : World) :
  a <> b ->
  duplicate_file a b w = Some (true, w') ->
  exists f, w_fs w !! a = Some f /\ w_fs w' = <[b := f]> (w_fs w).
Proof.
  intros Hab Hdup.
  pose proof (wp_elim _ _ _ _ _ (duplicate_file_spec a b w) Hdup)
    as (_ & _ & _ & _ & Hok & _).
  by apply Hok.
Qed.

(** Where the destination is absent, the environment lets [write_file] and
    [unlink] through, and [duplicate_file] still fails (the source cannot be
    read, or its ownership or mode cannot be applied), nothing is left
    behind. *)
Lemma duplicate_file_cleans_up_after_ownership_failure
    (a b : string) (w w' : World) :
  w_fs w !! b = None -> write_quiet w -> quiet SYS_unlink w ->
  duplicate_file a b w = Some (false, w') ->
  w_fs w' = w_fs w.
Proof.
  intros Hb Hw Hu Hdup.
  pose proof (wp_elim _ _ _ _ _ (duplicate_file_spec a b w) Hdup)
    as (_ & _ & _ & _ & _ & _ & Hclean).
  by apply Hclean.
Qed.

(** Every operation closes the descriptors it opens, whatever the
    environment does. *)
Lemma descriptors_are_closed (a b : string) (data : list byte) (n : Z)
    (w : World) :
  wp (read_file a) (fun _ w' => w_fds w' = w_fds w) w /\
  ((0 <= n <= Z.of_nat (length data))%Z ->
   wp (write_file data n a) (fun _ w' => w_fds w' = w_fds w) w) /\
  wp (duplicate_file a b) (fun _ w' => w_fds w' = w_fds w) w /\
  (strncmp a b MAXPGPATH <> 0%Z ->
   wp (move_file a b) (fun _ w' => w_fds w' = w_fds w) w).
Proof.
  split_and!.
  - eapply wp_mono; [apply read_file_spec|]. by intros ? ? (_ & ? & _).
  - intros Hn. eapply wp_mono; [by apply write_file_spec|]. by intros ? ? (? & _).
  - eapply wp_mono; [apply duplicate_file_spec|]. by intros ? ? (? & _).
  - intros Hne. eapply wp_mono; [by apply move_file_spec|]. by intros ? ? (? & _).
Qed.

(** Whenever [file_is_empty] gets as far as reading the file, the buffer
    that [read_file] allocated is still live when it returns. *)
Lemma file_is_empty_keeps_buffer (filename : string) (w w' : World) :
  file_is_empty filename w = Some (true, w') ->
  exists ptr, (ptr ∉ w_heap w) /\ w_heap w' = {[ ptr ]} ∪ w_heap w.
Proof.
  intros Hrun.
  assert (Hwp : wp (file_is_empty filename)
            (fun b w' => b = true ->
               exists ptr, (ptr ∉ w_heap w) /\ w_heap w' = {[ ptr ]} ∪ w_heap w) w).
  { unfold file_is_empty. wp_use file_exists_spec.
    intros ex w1 (_ & _ & Hheap1 & _). destruct ex; [|by wp_step].
    wp_use read_file_spec.
    intros [[buf n]|] w2 (_ & _ & _ & Hr & _); [|by wp_step].
    destruct Hr as (f & _ & _ & _ & Hfresh & Hheap2).
    rewrite Hheap1 in *. wp_run; [|done]. intros _. eauto. }
  by apply (wp_elim _ _ _ _ _ Hwp Hrun).
Qed.


(** C7, amended.  Where the destination exists before the call and the
    existence check is not itself disturbed by the environment,
    [duplicate_file] returns failure, and [move_file] returns failure unless
    source and destination agree on their first MAXPGPATH bytes, in which
    case it returns success without doing anything; in every case the file
    store is left exactly as it was. *)
Theorem existing_destination_is_kept (a b : string) (w : World) :
  on_disk w b ->
  quiet SYS_access w ->
  (exists w', duplicate_file a b w = Some (false, w') /\ w_fs w' = w_fs w) /\
  (exists r w',
     move_file a b w = Some (r, w') /\ w_fs w' = w_fs w /\
     (r = true <-> strncmp a b MAXPGPATH = 0%Z)).
Proof.
  intros Hb Hq. split.
  - destruct (proj1 (wp_iff _ _ _) (duplicate_file_spec a b w))
      as (r & w' & Hrun & _ & _ & _ & _ & _ & Hkeep & _).
    destruct (Hkeep Hq Hb) as [-> Hfs]. eauto.
  - destruct (decide (strncmp a b MAXPGPATH = 0%Z)) as [Hsame|Hne].
    + exists true. unfold move_file. rewrite decide_True by done.
      eexists. split; [reflexivity|]. by split.
    + destruct (proj1 (wp_iff _ _ _) (move_file_spec a b w Hne))
        as (r & w' & Hrun & _ & _ & _ & _ & Hkeep).
      destruct (Hkeep Hq Hb) as [-> Hfs].
      exists false, w'. by split_and!.
Qed.

(** The part of the copy of an absent path that does hold: for a path that
    does not exist, is shorter than MAXPGPATH and fits the destination
    buffer with its terminator, [normalize_filename] succeeds and the
    destination holds the path unchanged. *)
Lemma normalize_filename_copies_absent_path
    (filename dst : string) (size : Z) (w : World) :
  w_fs w !! filename = None ->
  String.length filename < MAXPGPATH ->
  MAXPGPATH <= PATH_MAX ->
  (Z.of_nat (String.length filename) < size)%Z ->
  exists w',
    normalize_filename filename dst size w = Some ((true, filename), w') /\
    w_fs w' = w_fs w.
Proof.
  intros Habs Hlen Hmax Hsize.
  destruct (proj1 (wp_iff _ _ _)
              (normalize_filename_absent filename dst size w Habs Hlen Hmax Hsize))
    as (r & w' & Hrun & -> & Hfs).
  eauto.
Qed.

Lemma spec_dedupe_sound (resolve : string -> option string) :
  forall inputs kept out,
    NoDup kept ->
    spec_dedupe resolve kept inputs = Some out ->
    NoDup out /\
    forall real, real ∈ out <->
      real ∈ kept \/ exists path, path ∈ inputs /\ resolve path = Some real.
Proof.
  induction inputs as [|path rest IH]; intros kept out Hnd Hrun;
    cbn [spec_dedupe] in Hrun.
  - injection Hrun as <-. split; [done|]. intros real. split; [auto|].
    intros [?|(p & Hp & _)]; [done|]. by apply elem_of_nil in Hp.
  - destruct (resolve path) as [r|] eqn:Hres; [|done].
    case_bool_decide as Hin.
    + destruct (IH _ _ Hnd Hrun) as [Hnd' Hmem]. split; [done|].
      intros real. rewrite Hmem. split.
      * intros [?|(p & Hp & Hr)]; [by left|].
        right. exists p. split; [|done]. apply elem_of_cons. by right.
      * intros [?|(p & Hp & Hr)]; [by left|].
        apply elem_of_cons in Hp as [->|Hp]; [left; congruence|].
        right. eauto.
    + assert (Hnd1 : NoDup (kept ++ [r])).
      { apply NoDup_app. split_and!; [done | | apply NoDup_singleton].
        intros x Hx Hx'. apply list_elem_of_singleton in Hx'. by subst. }
      destruct (IH _ _ Hnd1 Hrun) as [Hnd' Hmem]. split; [done|].
      intros real. rewrite Hmem, elem_of_app, list_elem_of_singleton. split.
      * intros [[?| ->]|(p & Hp & Hr)]; [by left | |].
        -- right. exists path. split; [|done]. apply elem_of_cons. by left.
        -- right. exists p. split; [|done]. apply elem_of_cons. by right.
      * intros [?|(p & Hp & Hr)]; [by left; left|].
        apply elem_of_cons in Hp as [->|Hp]; [left; right; congruence|].
        right. eauto.
Qed.

(** C4.  [search_path_deduplicate_symlinks] succeeds exactly when every
    entry resolves (to a real path that fits a slot), any resolution failure
    making it return failure; on success its output is what the spec
    describes: the resolved strings, in input order, each kept the first
    time it is met, so that no real path appears twice and every real path
    of an input appears once. *)
Theorem dedup_keeps_first_resolved (results dedup : SearchPath) (w : World) :
  found results <= length (matches results) ->
  found results <= length (matches dedup) ->
  let inputs := take (found results) (matches results) in
  exists ok out w',
    search_path_deduplicate_symlinks results dedup w = Some ((ok, out), w') /\
    (ok = true <-> Forall (resolves_short w) inputs) /\
    ((exists path, path ∈ inputs /\ Libc.resolve w path = None) ->
     ok = false) /\
    (ok = true ->
     let kept := take (found out) (matches out) in
     spec_dedupe (Libc.resolve w) [] inputs = Some kept /\
     NoDup kept /\
     forall real, real ∈ kept <->
       exists path, path ∈ inputs /\ Libc.resolve w path = Some real).
Proof.
  intros Hr Hd inputs. unfold search_path_deduplicate_symlinks.
  assert (Hwp := dedup_loop_spec results (found results) 0
                   (mkSearchPath 0 (matches dedup)) w).
  cbn [found matches take] in Hwp. rewrite drop_0 in Hwp.
  specialize (Hwp ltac:(lia) ltac:(lia) ltac:(constructor) ltac:(constructor)).
  destruct (proj1 (wp_iff _ _ _) Hwp)
    as ([ok out] & w' & Hrun & _ & _ & Hiff & Hspec).
  cbn [fst snd] in *. fold inputs in Hiff, Hspec.
  exists ok, out, w'. split_and!; try done.
  - intros (path & Hin & Hnone). destruct ok; [|done].
    pose proof (proj1 Hiff eq_refl) as Hall.
    destruct (proj1 (Forall_forall _ _) Hall path Hin) as (q & Hq & _). congruence.
  - intros Hok. specialize (Hspec Hok). split; [done|].
    destruct (spec_dedupe_sound _ _ _ _ (NoDup_nil_2) Hspec) as [Hnd Hmem].
    split; [done|]. intros real. rewrite Hmem. split; [|by right].
    intros [Hnil|?]; [|done]. by apply elem_of_nil in Hnil.
Qed.

(** C5.  [search_path] walks the segments of the PATH value in order (each
    ends at the first separator of what is left), the empty segment after a
    trailing separator included; for each it probes the canonicalized join
    of the segment and the file name, and records it exactly when it is on
    disk: the recorded matches are the candidates on disk, in PATH order. *)
Theorem search_path_records_in_path_order
    (filename pathlist : string) (result : SearchPath) (w : World) :
  c_get_env_copy (w_cfg w) "PATH" MAXPATHSIZE = Some pathlist ->
  quiet SYS_access w ->
  let kept := filter (on_disk w)
                (candidate filename <$> path_var_segments pathlist) in
  Forall (fun c => String.length c < MAXPGPATH) kept ->
  length kept <= length (matches result) ->
  exists out w',
    search_path filename result w = Some ((true, out), w') /\
    found out = length kept /\
    take (found out) (matches out) = kept /\
    w_fs w' = w_fs w /\
    path_var_segments pathlist =
      match first_path_var_separator pathlist with
      | None => [pathlist]
      | Some sep =>
          str_take sep pathlist
            :: path_var_segments (str_drop (S sep) pathlist)
      end /\
    path_var_segments (pathlist +:+ ":") =
      path_var_segments pathlist ++ [EmptyString].
Proof.
  intros Henv Hq kept Hfit Hcap.
  destruct (proj1 (wp_iff _ _ _)
              (search_path_spec filename result w pathlist Henv Hq Hfit Hcap))
    as ([ok out] & w' & Hrun & Hok & Hfound & Htake & Hfs).
  cbn [fst snd] in *. subst ok. exists out, w'. split_and!; try done.
  - apply path_var_segments_loop.
  - apply path_var_segments_trailing.
Qed.

End claims.

Section examples.
Existing Instance Example.platform.

Lemma write_read_roundtrip_witness :
  write_file Example.payload 3 "/tmp/out" Example.calm
    = Some (true, Example.written) /\
  exists buf w2,
    read_file "/tmp/out" Example.written = Some (Some (buf, 3%Z), w2) /\
    take (Z.to_nat 3) (b_bytes buf) = Example.payload /\
    b_bytes buf = Example.payload ++ [x00] /\
    w_fs w2 = w_fs Example.written.
Proof.
  assert (Hwrite : write_file Example.payload 3 "/tmp/out" Example.calm
                   = Some (true, Example.written))
    by (vm_compute; reflexivity).
  split; [exact Hwrite|].
  apply (write_read_roundtrip Example.payload 3 "/tmp/out"
           Example.calm Example.written).
  - reflexivity.
  - reflexivity.
  - exact Hwrite.
  - repeat split; vm_compute; reflexivity.
Defined.


(** C1.  The source is on one filesystem, the destination on another, and
    the environment refuses the final [unlink] with EACCES: [move_file]
    copies the file and reports success, yet the source is still there. *)
Theorem move_file_reports_success_with_source_left :
  c_mount Example.config "/tmp/notes" <> c_mount Example.config "/mnt/notes" /\
  result (move_file "/tmp/notes" "/mnt/notes")
         (Example.world (Example.faulty SYS_unlink (Err EACCES)))
    = Some true /\
  w_fs (final (move_file "/tmp/notes" "/mnt/notes")
              (Example.world (Example.faulty SYS_unlink (Err EACCES))))
    !! "/mnt/notes"%string = Some Example.notes /\
  w_fs (final (move_file "/tmp/notes" "/mnt/notes")
              (Example.world (Example.faulty SYS_unlink (Err EACCES))))
    !! "/tmp/notes"%string = Some Example.notes.
Proof. split_and!; [by vm_compute | vm_compute; reflexivity ..]. Qed.

(** C2.  The destination is absent and the environment cuts the write
    short after one byte (ENOSPC): [duplicate_file] returns failure and
    leaves a destination holding that one byte, with the mode of a new
    file. *)
Theorem duplicate_file_leaves_partial_destination :
  w_fs (Example.world (Example.faulty SYS_fwrite (Partial 1 ENOSPC)))
    !! "/mnt/notes"%string = None /\
  result (duplicate_file "/tmp/notes" "/mnt/notes")
         (Example.world (Example.faulty SYS_fwrite (Partial 1 ENOSPC)))
    = Some false /\
  w_fs (final (duplicate_file "/tmp/notes" "/mnt/notes")
              (Example.world (Example.faulty SYS_fwrite (Partial 1 ENOSPC))))
    !! "/mnt/notes"%string = Some (mkFile [x68] 1000 1000 420).
Proof. split_and!; vm_compute; reflexivity. Qed.

(** C9.  With no fault at all, [file_is_empty] on an empty file returns
    true and leaves the buffer of [read_file] allocated, and
    [duplicate_file] onto an existing destination returns failure and
    leaves it allocated too; no descriptor stays open. *)
Theorem read_buffer_is_never_freed :
  elements (w_heap Example.calm) = [] /\
  result (file_is_empty "/tmp/empty") Example.calm = Some true /\
  elements (w_heap (final (file_is_empty "/tmp/empty") Example.calm)) = [0] /\
  w_fds (final (file_is_empty "/tmp/empty") Example.calm) = ∅ /\
  result (duplicate_file "/tmp/notes" "/tmp/empty") Example.calm = Some false /\
  elements (w_heap (final (duplicate_file "/tmp/notes" "/tmp/empty")
                          Example.calm)) = [0] /\
  w_fds (final (duplicate_file "/tmp/notes" "/tmp/empty") Example.calm) = ∅.
Proof. split_and!; vm_compute; reflexivity. Qed.

(** C7 as stated fails: the destination exists, and [move_file] of a path
    onto itself returns success. *)
Lemma move_file_onto_itself_succeeds :
  ~ (forall (a b : string) (w : World),
       on_disk w b -> result (move_file a b) w = Some false).
Proof.
  intros Hclaim.
  specialize (Hclaim "/tmp/notes"%string "/tmp/notes"%string Example.calm).
  assert (Hb : on_disk Example.calm "/tmp/notes") by (by eexists).
  specialize (Hclaim Hb). vm_compute in Hclaim. discriminate.
Qed.

(** The existence check has to be reliable: when [access] fails on the
    destination for another reason than its absence, [file_exists] answers
    false and [rename] replaces the destination. *)
Example move_file_overwrites_when_probe_fails :
  result (move_file "/tmp/notes" "/tmp/empty")
         (Example.world (fun k => if Libc.syscall_eqb k SYS_access
                                  then [Partial 0 EIO; Err EIO] else []))
    = Some true /\
  w_fs (final (move_file "/tmp/notes" "/tmp/empty")
         (Example.world (fun k => if Libc.syscall_eqb k SYS_access
                                  then [Partial 0 EIO; Err EIO] else [])))
    !! "/tmp/empty"%string = Some Example.notes.
Proof. split; vm_compute; reflexivity. Qed.

Lemma existing_destination_is_kept_witness :
  on_disk Example.calm "/tmp/empty" /\
  quiet SYS_access Example.calm /\
  (exists w',
     duplicate_file "/tmp/notes" "/tmp/empty" Example.calm = Some (false, w') /\
     w_fs w' = w_fs Example.calm) /\
  (exists r w',
     move_file "/tmp/notes" "/tmp/empty" Example.calm = Some (r, w') /\
     w_fs w' = w_fs Example.calm /\
     (r = true <-> strncmp "/tmp/notes" "/tmp/empty" MAXPGPATH = 0%Z)).
Proof.
  assert (Hb : on_disk Example.calm "/tmp/empty") by (by eexists).
  assert (Hq : quiet SYS_access Example.calm) by reflexivity.
  split; [exact Hb|]. split; [exact Hq|].
  exact (existing_destination_is_kept "/tmp/notes" "/tmp/empty"
           Example.calm Hb Hq).
Defined.

(** C8.  For a path that does not exist, [normalize_filename] copies with
    the bound MAXPGPATH, whatever the stated size of the destination, and
    does not look at what [strlcpy] returns.  A path of MAXPGPATH bytes is
    cut to MAXPGPATH - 1 bytes in a destination of 2048 bytes, the call
    returns success and logs nothing; a path of 17 bytes overruns a
    destination of 8 bytes.  The branch for paths that exist bounds its
    copy by the stated size: for a destination of 8 bytes it returns
    failure and logs a fatal error. *)
Theorem normalize_filename_cuts_absent_path_silently :
  w_fs Example.calm !! Example.long_path = None /\
  String.length Example.long_path = MAXPGPATH /\
  result (normalize_filename Example.long_path EmptyString 2048) Example.calm
    = Some (true, Example.str_repeat "a" 1023) /\
  w_log (final (normalize_filename Example.long_path EmptyString 2048)
               Example.calm) = [] /\
  w_fs Example.calm !! "/etc/pgcopydb.ini"%string = None /\
  normalize_filename "/etc/pgcopydb.ini" EmptyString 8 Example.calm = None /\
  result (normalize_filename "/bin/tool" EmptyString 8) Example.calm
    = Some (false, "/usr/bi"%string) /\
  fst <$> last (w_log (final (normalize_filename "/bin/tool" EmptyString 8)
                             Example.calm)) = Some LOG_FATAL.
Proof. split_and!; vm_compute; reflexivity. Qed.

(** The claim that every absent path is copied through unchanged fails at
    that input: a path of MAXPGPATH bytes that does not exist is cut to
    MAXPGPATH - 1 bytes, and the call still returns success. *)
Lemma normalize_filename_truncates_long_path :
  ~ (forall (filename dst : string) (size : Z) (w : World),
       w_fs w !! filename = None ->
       result (normalize_filename filename dst size) w
         = Some (true, filename)).
Proof.
  intros Hclaim.
  specialize (Hclaim Example.long_path EmptyString 2048%Z Example.calm).
  assert (Habs : w_fs Example.calm !! Example.long_path = None)
    by (vm_compute; reflexivity).
  specialize (Hclaim Habs).
  apply (f_equal (fun r => match r with
                           | Some (ok, s) => ok && (String.length s =? 1023)
                           | None => false
                           end)) in Hclaim.
  vm_compute in Hclaim. discriminate.
Qed.

Lemma normalize_filename_copies_absent_path_witness :
  w_fs Example.calm !! "/etc/pgcopydb.ini"%string = None /\
  exists w',
    normalize_filename "/etc/pgcopydb.ini" EmptyString 64 Example.calm
      = Some ((true, "/etc/pgcopydb.ini"%string), w') /\
    w_fs w' = w_fs Example.calm.
Proof.
  assert (Habs : w_fs Example.calm !! "/etc/pgcopydb.ini"%string = None)
    by (vm_compute; reflexivity).
  split; [exact Habs|].
  apply (normalize_filename_copies_absent_path
           "/etc/pgcopydb.ini" EmptyString 64 Example.calm Habs).
  - vm_compute. lia.
  - vm_compute. lia.
  - vm_compute. reflexivity.
Defined.


Lemma dedup_keeps_first_resolved_witness :
  found Example.found_twice <= length (matches Example.found_twice) /\
  exists ok out w',
    search_path_deduplicate_symlinks Example.found_twice Example.slots
      Example.calm = Some ((ok, out), w') /\
    ok = true /\
    take (found out) (matches out) = ["/usr/bin/tool"%string].
Proof.
  assert (Hr : found Example.found_twice
               <= length (matches Example.found_twice))
    by (vm_compute; lia).
  assert (Hd : found Example.found_twice <= length (matches Example.slots))
    by (vm_compute; lia).
  split; [exact Hr|].
  destruct (dedup_keeps_first_resolved Example.found_twice Example.slots
              Example.calm Hr Hd)
    as (ok & out & w' & Hrun & Hiff & _ & Hspec).
  assert (Hok : ok = true).
  { apply Hiff. repeat constructor; eexists; (split; [vm_compute; reflexivity|]);
      vm_compute; lia. }
  exists ok, out, w'. split_and!; [done..|].
  destruct (Hspec Hok) as (Hkept & _).
  assert (Hs : spec_dedupe (Libc.resolve Example.calm) []
                 (take (found Example.found_twice)
                       (matches Example.found_twice))
               = Some ["/usr/bin/tool"%string]) by (vm_compute; reflexivity).
  rewrite Hs in Hkept. by injection Hkept as <-.
Defined.

Lemma search_path_records_in_path_order_witness :
  c_get_env_copy (w_cfg Example.calm) "PATH" MAXPATHSIZE
    = Some "/bin:/opt:/usr/bin:"%string /\
  quiet SYS_access Example.calm /\
  path_var_segments "/bin:/opt:/usr/bin:"
    = ["/bin"; "/opt"; "/usr/bin"; EmptyString]%string /\
  exists out w',
    search_path "tool" Example.slots Example.calm = Some ((true, out), w') /\
    found out = 2 /\
    take (found out) (matches out)
      = ["/bin/tool"; "/usr/bin/tool"]%string.
Proof.
  assert (Henv : c_get_env_copy (w_cfg Example.calm) "PATH" MAXPATHSIZE
                 = Some "/bin:/opt:/usr/bin:"%string) by reflexivity.
  assert (Hq : quiet SYS_access Example.calm) by reflexivity.
  split; [exact Henv|]. split; [exact Hq|]. split; [reflexivity|].
  assert (Hkept : filter (on_disk Example.calm)
                    (candidate "tool" <$> path_var_segments "/bin:/opt:/usr/bin:")
                  = ["/bin/tool"; "/usr/bin/tool"]%string)
    by (vm_compute; reflexivity).
  destruct (search_path_records_in_path_order "tool" "/bin:/opt:/usr/bin:"
              Example.slots Example.calm Henv Hq)
    as (out & w' & Hrun & Hfound & Htake & _).
  - rewrite Hkept. repeat constructor; vm_compute; lia.
  - rewrite Hkept. vm_compute. lia.
  - exists out, w'. rewrite Hkept in *. by split_and!.
Defined.

End examples.

(** ** The further functions: rules and lemmas *)

Lemma wp_and {A} (m : M A) (Q1 Q2 : A -> World -> Prop) w :
  wp m Q1 w -> wp m Q2 w -> wp m (fun a w' => Q1 a w' /\ Q2 a w') w.
Proof. unfold wp. destruct (m w) as [[a w']|]; auto. Qed.

Section extras_io.
Context `{Platform}.

Lemma file_exists_log p w :
  wp (file_exists p)
     (fun b w' =>
        (forall e rest, w_sched w SYS_access = Err e :: rest ->
           b = false /\
           (e = ENOENT \/ e = ENOTDIR -> w_log w' = w_log w) /\
           (e <> ENOENT -> e <> ENOTDIR ->
            w_log w' = w_log w ++
              [(LOG_ERROR, "Failed to check if file %s exists: %m"%string)])) /\
        (quiet SYS_access w ->
         (b = true <-> on_disk w p) /\ w_log w' = w_log w)) w.
Proof.
  unfold file_exists, Libc.access.
  repeat wp_step.
  destruct (Libc.fails (head (w_sched w SYS_access))) as [e|] eqn:Hf.
  - repeat wp_step.
    destruct e; cbn; repeat wp_step; split.
    all: try (intros Hq; by rewrite (quiet_fails _ _ Hq) in Hf).
    all: intros e rest Hs; rewrite Hs in Hf; cbn in Hf; injection Hf as ->.
    all: split_and!; try done; intros; intuition congruence.
  - repeat wp_step.
    destruct (w_fs w !! p) as [f|] eqn:Hp.
    + repeat wp_step.
      destruct (w_errno w); cbn; repeat wp_step; split.
      all: try (intros e' rest Hs; rewrite Hs in Hf; discriminate).
      all: intros _; split; [|done].
      all: unfold on_disk; rewrite Hp; split; eauto.
    + repeat wp_step. cbn. repeat wp_step. split.
      * intros e' rest Hs; rewrite Hs in Hf; discriminate.
      * intros _. split; [|done].
        unfold on_disk; rewrite Hp. split; [done|]. by intros [? ?].
Qed.


Lemma fopen_read_only_cases p w :
  (exists e, Libc.fails (head (w_sched w SYS_fopen)) = Some e /\
     fopen_read_only p w
       = Some (None, with_errno (Some e) (Libc.consume SYS_fopen w))) \/
  (Libc.fails (head (w_sched w SYS_fopen)) = None /\ w_fs w !! p = None /\
     fopen_read_only p w
       = Some (None, with_errno (Some ENOENT) (Libc.consume SYS_fopen w))) \/
  (Libc.fails (head (w_sched w SYS_fopen)) = None /\ is_Some (w_fs w !! p) /\
     exists fd w0, fopen_read_only p w = Some (Some fd, w0) /\
                   w_log w0 = w_log w).
Proof.
  unfold fopen_read_only, Libc.fopen_rb, Libc.failing, Libc.next_fault,
    Libc.fail_with, Libc.new_stream, set_errno, bind, ret, gets, modify.
  destruct (Libc.fails (head (w_sched w SYS_fopen))) as [e|] eqn:Hf; cbn.
  - left. eauto.
  - right. destruct (w_fs w !! p) as [f|] eqn:Hp; cbn; [right|left]; eauto 10.
Qed.

Lemma write_file_meta data n p w :
  (0 <= n <= Z.of_nat (length data))%Z ->
  wp (write_file data n p)
     (fun b w' =>
        (b = true ->
         w_fs w' =
           <[p := match w_fs w !! p with
                  | Some f => mkFile (take (Z.to_nat n) data)
                                     (st_uid f) (st_gid f) (st_mode f)
                  | None =>
                      mkFile (take (Z.to_nat n) data)
                             (c_euid (w_cfg w)) (c_egid (w_cfg w))
                             (Z.land 420 (Z.lnot (c_umask (w_cfg w))))
                  end]> (w_fs w)) /\
        (forall e rest, w_sched w SYS_open = Err e :: rest ->
           b = false /\ w_fs w' = w_fs w)) w.
Proof.
  intros Hn.
  assert (Ht : bool_decide (Libc.O_TRUNC ∈ FOPEN_FLAGS_W) = true) by done.
  assert (Hc : bool_decide (Libc.O_CREAT ∈ FOPEN_FLAGS_W) = true) by done.
  unfold write_file, fopen_with_umask,
    Libc.open, Libc.fdopen, Libc.close, Libc.fwrite, Libc.fclose.
  wp_run.
  all: split; [try done | ].
  all: try (intros e' rest Hs;
            match goal with
            | Hf : Libc.fails (head (w_sched _ SYS_open)) = _ |- _ =>
                rewrite Hs in Hf; cbn in Hf; try discriminate
            end; by split).
  all: intros _; rewrite insert_insert_eq; cbn;
    rewrite drop_nil, app_nil_r; by rewrite fwrite_not_short.
Qed.

End extras_io.

Section extras_files.
Context `{Platform}.

Lemma file_is_empty_spec p w :
  wp (file_is_empty p)
     (fun b w' =>
        w_fs w' = w_fs w /\ w_fds w' = w_fds w /\
        (b = true -> exists f, w_fs w !! p = Some f /\ f_data f = []) /\
        (quiet SYS_access w -> read_quiet w ->
         forall f, w_fs w !! p = Some f -> f_data f = [] -> b = true)) w.
Proof.
  unfold file_is_empty. wp_use file_exists_spec.
  intros ex w1 (Hfs1 & Hfds1 & _ & Hs1 & _ & Hex).
  destruct ex.
  2: { wp_step. split_and!; try done. intros Hq _ f Hf _.
       apply Hex; [done|]. by rewrite Hf. }
  wp_use read_file_spec.
  intros [[buf n]|] w2 (Hfs2 & Hfds2 & _ & Hr & Hok).
  - destruct Hr as (f & Hf & _ & Hn & _). rewrite Hfs1 in Hf.
    wp_run; split_and!; try congruence.
    + intros _. exists f. split; [done|]. apply length_zero_iff_nil. lia.
    + intros _ _ f' Hf' Hnil. assert (f' = f) by congruence. subst f'.
      rewrite Hnil in Hn. simpl in Hn. lia.
  - wp_step. split_and!; try congruence.
    intros Hq (Ho & Hs & Ht & Hm & Hrd & Hc) f Hf Hnil.
    destruct Hs1 as [_ Hs1].
    assert (Hsome : is_Some (@None (Buffer * Z))).
    { apply Hok.
      - split_and!; by apply Hs1.
      - exists f. rewrite Hfs1, Hnil. split; [done|]. unfold LONG_MAX. simpl. lia. }
    by destruct Hsome.
Qed.

Lemma write_then_delete data n p w b w1 :
  (0 <= n <= Z.of_nat (length data))%Z ->
  w_fs w !! p = None ->
  write_file data n p w = Some (b, w1) ->
  delete p (w_fs w1) = w_fs w.
Proof.
  intros Hn Hp Hrun.
  pose proof (wp_elim _ _ _ _ _ (write_file_spec data n p w Hn) Hrun)
    as (_ & _ & _ & Hframe & _).
  apply map_eq. intros q. destruct (decide (q = p)) as [->|Hq].
  - by rewrite lookup_delete_eq.
  - rewrite lookup_delete_ne by done. by apply Hframe.
Qed.

Lemma move_file_outcomes a b w :
  strncmp a b MAXPGPATH <> 0%Z ->
  wp (move_file a b)
     (fun r w' =>
        (forall f, w_fs w !! a = Some f ->
           if r then w_fs w' !! b = Some f else w_fs w' !! a = Some f) /\
        (forall q, q <> a -> q <> b -> w_fs w' !! q = w_fs w !! q) /\
        (w_fs w !! a = None -> r = false /\ w_fs w' = w_fs w) /\
        (quiet SYS_access w -> quiet SYS_rename w ->
         c_mount (w_cfg w) a = c_mount (w_cfg w) b ->
         forall f, w_fs w !! a = Some f -> w_fs w !! b = None ->
           r = true /\ w_fs w' = <[b := f]> (delete a (w_fs w)) /\
           w_log w' = w_log w)) w.
Proof.
  intros Hne. pose proof (strncmp_neq _ _ _ Hne) as Hab.
  unfold move_file. rewrite decide_False by done.
  apply wp_bind. eapply wp_mono.
  { apply (wp_and _ _ _ _ (file_exists_spec a w) (file_exists_log a w)). }
  cbv beta.
  intros ex1 w1 ((Hfs1 & _ & _ & Hs1 & Hex1 & Hex1') & (_ & Hlog1)).
  destruct ex1; cbn [negb].
  2: { wp_run. split_and!; try done.
       - intros f Hf. congruence.
       - intros. congruence.
       - intros Hq _ _ f Hf _. discriminate Hex1'; [done|]. by rewrite Hf. }
  apply wp_bind. eapply wp_mono.
  { apply (wp_and _ _ _ _ (file_exists_spec b w1) (file_exists_log b w1)). }
  cbv beta.
  intros ex2 w2 ((Hfs2 & _ & _ & Hs2 & Hex2 & Hex2') & (_ & Hlog2)).
  rewrite Hfs1 in *.
  destruct (Hex1 eq_refl) as [fa Hfa].
  assert (Hs02 : steps_to w w2) by (by eapply steps_to_trans).
  assert (Hcfg : w_cfg w2 = w_cfg w) by (by destruct Hs02).
  destruct ex2.
  { wp_run. split_and!; try done; try congruence.
    intros Hq _ _ f _ Hb. destruct (Hex2 eq_refl) as [? ?]. congruence. }
  unfold Libc.rename.
  wp_run.
  all: try (wp_use duplicate_file_spec;
            intros ok w3 (_ & _ & Hfs3 & _ & Hok3 & _); wcbn;
            destruct ok; cbn [negb]; wp_run;
            try (wp_use unlink_file_spec;
                 intros ? w4 (_ & _ & _ & Hfs4 & _); wcbn; wp_step)).
  all: split_and!; try congruence.
  all: try (intros ? ?; congruence).
  all: try (intros f Hf; rewrite ?Hfs2; rewrite ?lookup_insert_eq; congruence).
  all: try (intros q Hqa Hqb; rewrite ?Hfs2;
            by rewrite ?lookup_insert_ne, ?lookup_delete_ne by done).
  all: try (intros f Hf; rewrite Hfs3 by done; congruence).
  all: try (intros q Hqa Hqb; rewrite Hfs3 by done; congruence).
  all: try (intros Hq Hqr; exfalso; destruct Hs02 as [_ Hs02'];
            pose proof (Hs02' _ Hqr); quiet_contra).
  all: try (intros Hq Hqr Hm; rewrite Hcfg in *; done).
  all: try (destruct (Hok3 eq_refl Hab) as (f' & Ha' & Hfs3');
            rewrite Hfs2 in *).
  all: try (intros f Hf; destruct Hfs4 as [-> | ->]; rewrite Hfs3';
            rewrite ?lookup_delete_ne by done; rewrite lookup_insert_eq;
            congruence).
  all: try (intros q Hqa Hqb; destruct Hfs4 as [-> | ->]; rewrite Hfs3';
            by rewrite ?lookup_delete_ne, ?lookup_insert_ne by done).
  intros Hq _ _ f [= <-] _. rewrite Hfs2. split_and!; try done.
  destruct (Hlog1 Hq) as [_ <-]. apply Hlog2.
  destruct Hs1 as [_ Hs1']. by apply Hs1'.
Qed.

End extras_files.

Section extras_append.
Context `{Platform}.

Lemma append_at_end {A} (old put : list A) :
  take (length old) old ++ put ++ drop (length old + length put) old
    = old ++ put.
Proof.
  rewrite firstn_all. f_equal. rewrite drop_ge by lia. apply app_nil_r.
Qed.

Lemma append_to_file_spec data n p w :
  (0 <= n <= Z.of_nat (length data))%Z ->
  wp (append_to_file data n p)
     (fun b w' =>
        w_fds w' = w_fds w /\ w_heap w' = w_heap w /\ steps_to w w' /\
        (forall q, q <> p -> w_fs w' !! q = w_fs w !! q) /\
        (forall f, w_fs w !! p = Some f ->
           exists k, k <= Z.to_nat n /\ (b = true -> k = Z.to_nat n) /\
             w_fs w' !! p = Some (mkFile (f_data f ++ take k data)
                                         (st_uid f) (st_gid f) (st_mode f))) /\
        (forall f, w_fs w !! p = Some f -> is_directory f ->
           b = false /\ w_fs w' = w_fs w) /\
        (b = true -> w_fs w !! p = None ->
           w_fs w' !! p =
             Some (mkFile (take (Z.to_nat n) data)
                          (c_euid (w_cfg w)) (c_egid (w_cfg w))
                          (Z.land 420 (Z.lnot (c_umask (w_cfg w)))))) /\
        (write_quiet w -> no_directory w p -> b = true)) w.
Proof.
  intros Hn.
  assert (Ht : bool_decide (LibcMore.O_APPEND ∈ FOPEN_FLAGS_A) = true) by done.
  assert (Hc : bool_decide (LibcMore.O_CREAT ∈ FOPEN_FLAGS_A) = true) by done.
  unfold append_to_file, fopen_with_umask_append,
    LibcMore.open, Libc.fdopen, Libc.close, Libc.fwrite, Libc.fclose.
  wp_run.
  all: split_and!; try done; try solve_steps; try fds_done.
  all: try (intros (? & ? & ? & ?) ?; quiet_contra).
  all: try (intros q Hq; by rewrite ?lookup_insert_ne by done).
  all: try (intros _ Hnd; exfalso; eapply Hnd; eassumption).
  all: try (intros f0 Hf0; first [ rewrite Hf0 in *; discriminate
                                  | injection Hf0 as <- ]).
  all: try (intros Hdir; first [ done | by split ]).
  all: rewrite ?Ht, ?lookup_insert_eq, ?append_at_end in *.
  all: try (exists 0; split_and!; [lia | done |];
            rewrite ?app_nil_r; first [ by destruct f0 | by destruct f ]).
  all: try (eexists; split_and!; [apply transferred_le | done | reflexivity]).
  all: try (eexists; split_and!; [apply transferred_le | | reflexivity];
            intros _; rewrite length_take in *;
            pose proof (transferred_le (head (w_sched w SYS_fwrite)) (Z.to_nat n));
            lia).
  all: try (intros _ _; cbn; rewrite drop_nil, app_nil_r;
            by rewrite fwrite_not_short).
  all: try (intros (_ & _ & Hq & _) _; rewrite (quiet_head _ _ Hq) in *; cbn in *;
            rewrite length_take in *; lia).
Qed.

End extras_append.

Section extras_dir.
Context `{Platform}.

Lemma directory_exists_spec p w :
  wp (directory_exists p)
     (fun b w' =>
        w_fs w' = w_fs w /\ w_fds w' = w_fds w /\ w_heap w' = w_heap w /\
        (b = true ->
         exists f, w_fs w !! p = Some f /\
                   Z.land (st_mode f) S_IFMT = S_IFDIR) /\
        (quiet SYS_access w -> quiet SYS_stat w ->
         b = match w_fs w !! p with
             | Some f => bool_decide (Z.land (st_mode f) S_IFMT = S_IFDIR)
             | None => false
             end) /\
        (quiet SYS_access w -> w_fs w !! p = None -> w_log w' = w_log w)) w.
Proof.
  unfold directory_exists.
  apply wp_bind. eapply wp_mono.
  { apply (wp_and _ _ _ _ (file_exists_spec p w) (file_exists_log p w)). }
  cbv beta.
  intros ex w1 ((Hfs1 & Hfds1 & Hheap1 & Hs1 & Hex & Hex') & (_ & Hlog)).
  destruct ex; cbn [negb].
  2: { wp_step. split_and!; try done.
       - intros Hq _. destruct (w_fs w !! p) eqn:Hp; [|done].
         discriminate Hex'; [done|]. by eexists.
       - intros Hq _. by destruct (Hlog Hq). }
  destruct (Hex eq_refl) as [f Hf].
  unfold Libc.stat. wp_run.
  all: split_and!; try done; try congruence.
  all: try (intros Hq Hqs; destruct Hs1 as [_ Hs1']; pose proof (Hs1' _ Hqs);
            quiet_contra).
  all: try (intros Hb; apply bool_decide_eq_true in Hb; rewrite Hfs1 in *;
            eexists; split; [eassumption|done]).
  intros Hb. apply bool_decide_eq_true in Hb. eauto.
Qed.

End extras_dir.

Section extras_path.
Context `{Platform} `{Header}.

Lemma path_var_segments_join pathlist :
  join_path_var (path_var_segments pathlist) = pathlist.
Proof.
  induction pathlist as [|ch rest IH]; [done|].
  cbn [path_var_segments].
  pose proof (path_var_segments_nonempty rest) as Hne.
  destruct (path_var_segments rest) as [|seg segs] eqn:Hsegs; [done|].
  destruct (IS_PATH_VAR_SEP ch) eqn:Hsep.
  - apply bool_decide_eq_true in Hsep. subst ch.
    change (join_path_var (EmptyString :: seg :: segs))
      with (String ":" (join_path_var (seg :: segs))).
    by rewrite IH.
  - destruct segs as [|seg' segs].
    + cbn in *. by rewrite IH.
    + change (join_path_var (String ch seg :: seg' :: segs))
        with (String ch (join_path_var (seg :: seg' :: segs))).
      by rewrite IH.
Qed.

Lemma path_var_segments_count pathlist :
  length (path_var_segments pathlist) = S (count_path_var_sep pathlist).
Proof.
  induction pathlist as [|ch rest IH]; [done|].
  cbn [path_var_segments count_path_var_sep].
  pose proof (path_var_segments_nonempty rest) as Hne.
  destruct (IS_PATH_VAR_SEP ch); cbn [length]; [by rewrite IH|].
  destruct (path_var_segments rest) as [|seg segs]; [done|].
  cbn [length] in *. by rewrite IH.
Qed.

Lemma path_var_segments_clean pathlist :
  Forall (fun segment => first_path_var_separator segment = None)
         (path_var_segments pathlist).
Proof.
  induction pathlist as [|ch rest IH]; [by repeat constructor|].
  cbn [path_var_segments].
  destruct (IS_PATH_VAR_SEP ch) eqn:Hsep; [by constructor|].
  destruct (path_var_segments rest) as [|seg segs].
  - repeat constructor. cbn. by rewrite Hsep.
  - apply Forall_cons in IH as [Hseg Hsegs]. constructor; [|done].
    cbn. by rewrite Hsep, Hseg.
Qed.

Lemma take_head {A} (l : list A) n x rest :
  take n l = x :: rest -> l !! 0 = Some x.
Proof. destruct l, n; simpl; congruence. Qed.

Lemma search_path_first_spec filename result logLevel w pathlist :
  c_get_env_copy (w_cfg w) "PATH" MAXPATHSIZE = Some pathlist ->
  quiet SYS_access w ->
  let kept := filter (on_disk w)
                (candidate filename <$> path_var_segments pathlist) in
  Forall (fun c => String.length c < MAXPGPATH) kept ->
  length kept <= SEARCH_PATH_MATCHES ->
  wp (search_path_first filename result logLevel)
     (fun r w' =>
        w_fs w' = w_fs w /\
        match kept with
        | [] =>
            r = (false, result) /\
            last (w_log w')
              = Some (logLevel, "Failed to find %s command in your PATH"%string)
        | first :: _ => r = (true, first)
        end) w.
Proof.
  intros Henv Hq kept Hfit Hcap. unfold search_path_first.
  apply wp_bind. eapply wp_mono.
  { eapply search_path_spec; [exact Henv | exact Hq | exact Hfit |].
    cbn [matches]. by rewrite length_replicate. }
  cbv beta. fold kept.
  intros [ok paths] w1 (Hok & Hfound & Htake & Hfs). cbn [fst snd] in *.
  subst ok. cbn [negb orb].
  destruct kept as [|first rest] eqn:Hkept.
  - cbn [length] in Hfound. rewrite Hfound. cbn [Nat.eqb].
    wp_run. split_and!; try done. apply last_snoc.
  - cbn [length] in Hfound. rewrite Hfound in *. cbn [Nat.eqb].
    rewrite (take_head _ _ _ _ Htake).
    apply Forall_cons in Hfit as [Hlen _].
    rewrite strlcpy_fits by lia. by wp_step.
Qed.

Lemma search_path_first_no_path filename result logLevel w :
  c_get_env_copy (w_cfg w) "PATH" MAXPATHSIZE = None ->
  search_path_first filename result logLevel w =
    Some ((false, result),
          with_log (w_log w ++
            [(logLevel, "Failed to find %s command in your PATH"%string)]) w).
Proof.
  intros Henv.
  unfold search_path_first, search_path, get_env_copy, bind, gets, ret,
    log_level_msg, modify.
  by rewrite Henv.
Qed.

End extras_path.

Section extras_dedup.
Context `{Platform}.

Lemma spec_dedupe_fixed (resolve : string -> option string) : forall l kept,
  NoDup (kept ++ l) -> Forall (fun p => resolve p = Some p) l ->
  spec_dedupe resolve kept l = Some (kept ++ l).
Proof.
  induction l as [|p l IH]; intros kept Hnd Hfix.
  - by rewrite app_nil_r.
  - apply Forall_cons in Hfix as [Hp Hfix]. cbn [spec_dedupe]. rewrite Hp.
    assert (Hnew : p ∉ kept).
    { apply NoDup_app in Hnd as (_ & Hdisj & _). intros Hin.
      apply (Hdisj p Hin). apply elem_of_cons. by left. }
    rewrite bool_decide_eq_false_2 by done.
    rewrite IH; [by rewrite <- app_assoc | by rewrite <- app_assoc | done].
Qed.

Lemma strlcpy_match_bounds sp src sp' n :
  strlcpy_match sp src = Some (sp', n) ->
  found sp' <= length (matches sp') /\
  length (matches sp') = length (matches sp).
Proof.
  unfold strlcpy_match.
  destruct (matches sp !! found sp) as [old|] eqn:Hold; [|done].
  destruct (strlcpy _ _ _ _) as [[new k]|]; [|done].
  intros [= <- <-]. cbn [found matches]. rewrite length_insert.
  apply lookup_lt_Some in Hold. split; [lia|done].
Qed.

Lemma dedup_loop_bounds results : forall steps rIndex dedup w r w',
  dedup_loop steps rIndex results dedup w = Some (r, w') ->
  found dedup <= length (matches dedup) ->
  found (snd r) <= length (matches (snd r)) /\
  length (matches (snd r)) = length (matches dedup).
Proof.
  induction steps as [|steps IH]; intros rIndex dedup w r w' Hrun Hb;
    cbn [dedup_loop] in Hrun.
  - injection Hrun as <- <-. by split.
  - destruct (matches results !! rIndex) as [path|]; [|done].
    unfold bind at 1 in Hrun.
    destruct (Libc.realpath path w) as [[[real|] w1]|]; [| |done].
    2: { injection Hrun as <- <-. by split. }
    unfold bind at 1 in Hrun.
    destruct (dedup_already_there _ _ _ _ w1) as [[[|] w2]|]; [| |done];
      cbn [negb] in Hrun.
    + by apply (IH _ _ _ _ _ Hrun).
    + destruct (strlcpy_match dedup real) as [[dedup' n]|] eqn:Hcopy; [|done].
      destruct (strlcpy_match_bounds _ _ _ _ Hcopy) as [Hb' Hlen].
      destruct (decide (MAXPGPATH <= n)).
      * injection Hrun as <- <-. by split.
      * destruct (IH _ _ _ _ _ Hrun Hb') as [? ?]. split; [done|congruence].
Qed.

Lemma dedup_fixed_spec (results dedup : SearchPath) (w : World) :
  found results <= length (matches results) ->
  found results <= length (matches dedup) ->
  NoDup (take (found results) (matches results)) ->
  Forall (fun p => Libc.resolve w p = Some p /\ String.length p < MAXPGPATH)
         (take (found results) (matches results)) ->
  exists out w',
    search_path_deduplicate_symlinks results dedup w = Some ((true, out), w') /\
    w_fs w' = w_fs w /\ w_cfg w' = w_cfg w /\
    found out = found results /\
    found out <= length (matches out) /\
    take (found out) (matches out) = take (found results) (matches results).
Proof.
  intros Hr Hd Hnd Hfix. unfold search_path_deduplicate_symlinks.
  assert (Hwp := dedup_loop_spec results (found results) 0
                   (mkSearchPath 0 (matches dedup)) w).
  cbn [found matches take] in Hwp. rewrite drop_0 in Hwp.
  specialize (Hwp ltac:(lia) ltac:(lia) ltac:(constructor) ltac:(constructor)).
  destruct (proj1 (wp_iff _ _ _) Hwp)
    as ([ok out] & w' & Hrun & Hfs & Hcfg & Hiff & Hspec).
  cbn [fst snd] in *.
  assert (Hok : ok = true).
  { apply Hiff. eapply Forall_impl; [exact Hfix|].
    intros p [Hp Hlen]. by exists p. }
  subst ok. specialize (Hspec eq_refl).
  rewrite (spec_dedupe_fixed (Libc.resolve w)) in Hspec.
  2: done.
  2: { eapply Forall_impl; [exact Hfix|]. by intros p [Hp _]. }
  injection Hspec as Hspec. cbn [app] in Hspec.
  destruct (dedup_loop_bounds _ _ _ _ _ _ _ Hrun) as [Hb _];
    [cbn; lia|]. cbn [snd] in Hb.
  exists out, w'. split_and!; try done.
  apply (f_equal length) in Hspec. rewrite !length_take in Hspec. lia.
Qed.

Lemma normalize_filename_existing filename dst size w :
  on_disk w filename ->
  quiet SYS_access w ->
  (0 < size <= INT_MAX)%Z ->
  wp (normalize_filename filename dst size)
     (fun r w' =>
        w_fs w' = w_fs w /\
        match Libc.resolve w filename with
        | None =>
            r = (false, dst) /\
            last (w_log w')
              = Some (LOG_FATAL, "Failed to normalize file name %s: %m"%string)
        | Some real =>
            ((Z.of_nat (String.length real) < size)%Z -> r = (true, real)) /\
            ((size <= Z.of_nat (String.length real))%Z ->
             r = (false, str_take (Z.to_nat size - 1) real) /\
             exists msg, last (w_log w') = Some (LOG_FATAL, msg))
        end) w.
Proof.
  intros Hon Hq Hsize. unfold normalize_filename.
  wp_use file_exists_spec.
  intros ex w1 (Hfs1 & _ & _ & Hs1 & _ & Hex).
  rewrite (Hex Hq Hon).
  wp_use realpath_spec. intros resolved w2 (-> & Hfs2 & Hcfg2).
  rewrite (resolve_cfg w w1) by (by destruct Hs1).
  destruct (Libc.resolve w filename) as [real|] eqn:Hres.
  2: { wp_run. split_and!; try congruence. apply last_snoc. }
  assert (Hst : size_t_of_int size = Z.to_nat size).
  { unfold size_t_of_int. rewrite Z.mod_small; [done|].
    unfold INT_MAX in Hsize. lia. }
  rewrite Hst. unfold strlcpy.
  destruct (Z.to_nat size) as [|k] eqn:Hk; [lia|].
  rewrite decide_True by (rewrite str_take_length; lia).
  wp_run; split_and!; try congruence; try lia.
  - intros _. split; [|eexists; apply last_snoc].
    by replace (S k - 1) with k by lia.
  - intros _. by rewrite str_take_ge by lia.
Qed.

End extras_dedup.

(** ** The process title *)

Lemma poke_string_outside s : forall m addr a,
  (a < addr \/ addr + Z.of_nat (String.length s) <= a)%Z ->
  poke_string m addr s a = m a.
Proof.
  induction s as [|c r IH]; intros m addr a Ha; [done|].
  cbn [poke_string String.length] in *. rewrite IH by lia.
  unfold poke. rewrite decide_False by lia. done.
Qed.

Lemma peek_string_ext n : forall m m' addr,
  (forall a, (addr <= a < addr + Z.of_nat n)%Z -> m a = m' a) ->
  peek_string n m addr = peek_string n m' addr.
Proof.
  induction n as [|n IH]; intros m m' addr Hext; [done|].
  cbn [peek_string]. f_equal; [apply Hext; lia|].
  apply IH. intros a Ha. apply Hext. lia.
Qed.

Lemma peek_poke_string s : forall m addr,
  peek_string (String.length s) (poke_string m addr s) addr = s.
Proof.
  induction s as [|c r IH]; intros m addr; [done|].
  cbn [poke_string String.length peek_string]. f_equal; [|apply IH].
  rewrite poke_string_outside by lia. unfold poke. by rewrite decide_True.
Qed.

Lemma peek_string_app n1 n2 : forall m addr,
  peek_string (n1 + n2) m addr
    = (peek_string n1 m addr +:+ peek_string n2 m (addr + Z.of_nat n1))%string.
Proof.
  induction n1 as [|n1 IH]; intros m addr.
  - cbn. by rewrite Z.add_0_r.
  - cbn [Nat.add peek_string]. rewrite IH.
    change (String ?c ?a +:+ ?b)%string with (String c (a +:+ b))%string.
    replace (addr + Z.of_nat (S n1))%Z with (addr + 1 + Z.of_nat n1)%Z by lia.
    done.
Qed.

Lemma pad_title_spec steps : forall m addr a,
  pad_title steps m addr a =
    if decide (addr <= a < addr + Z.of_nat steps)%Z then Ascii.zero else m a.
Proof.
  induction steps as [|steps IH]; intros m addr a.
  - cbn [pad_title]. by rewrite decide_False by lia.
  - cbn [pad_title]. rewrite IH. unfold poke.
    repeat case_decide; try done; lia.
Qed.

Lemma peek_string_zero n : forall m addr,
  (forall a, (addr <= a < addr + Z.of_nat n)%Z -> m a = Ascii.zero) ->
  peek_string n m addr = nul_bytes n.
Proof.
  induction n as [|n IH]; intros m addr Hz; [done|].
  cbn [peek_string nul_bytes]. f_equal; [apply Hz; lia|].
  apply IH. intros a Ha. apply Hz. lia.
Qed.

Lemma pg_vsnprintf_spec m str count text :
  (0 <= count)%Z ->
  (Z.of_nat (String.length text) <= INT_MAX)%Z ->
  exists m',
    pg_vsnprintf m str count text = Some (m', Z.of_nat (String.length text)) /\
    (forall a, (a < str \/ str + count <= a)%Z -> m' a = m a) /\
    let stored := str_take (Z.to_nat (count - 1)) text in
    peek_string (String.length stored) m' str = stored /\
    ((0 < count)%Z -> m' (str + Z.of_nat (String.length stored))%Z = Ascii.zero).
Proof.
  intros Hcount Hlen. unfold pg_vsnprintf.
  rewrite decide_False by lia. eexists. split; [reflexivity|].
  pose proof (str_take_length (Z.to_nat (count - 1)) text) as Hst.
  destruct (decide (count <= 0)%Z) as [Hz|Hpos].
  - assert (count = 0)%Z by lia. subst count. cbn. split_and!; try done; lia.
  - split_and!.
    + intros a Ha. unfold poke. rewrite decide_False by lia.
      apply poke_string_outside. lia.
    + erewrite peek_string_ext; [apply peek_poke_string|].
      intros a Ha. unfold poke. by rewrite decide_False by lia.
    + intros _. unfold poke. by rewrite decide_True.
Qed.

Lemma sformat_spec m str count fmt text w :
  (0 <= count)%Z ->
  (Z.of_nat (String.length text) <= INT_MAX)%Z ->
  wp (sformat m (Some str) count (Some fmt) text)
     (fun r w' =>
        snd r = Z.of_nat (String.length text) /\
        (forall a, (a < str \/ str + count <= a)%Z -> fst r a = m a) /\
        (let stored := str_take (Z.to_nat (count - 1)) text in
         peek_string (String.length stored) (fst r) str = stored /\
         ((0 < count)%Z ->
          fst r (str + Z.of_nat (String.length stored))%Z = Ascii.zero)) /\
        w_fs w' = w_fs w /\
        ((Z.of_nat (String.length text) < count)%Z -> w_log w' = w_log w) /\
        ((count <= Z.of_nat (String.length text))%Z ->
         exists msg, w_log w' = w_log w ++ [(LOG_ERROR, msg)])) w.
Proof.
  intros Hcount Hlen. unfold sformat.
  destruct (pg_vsnprintf_spec m str count text Hcount Hlen)
    as (m' & -> & Hout & Hin).
  wp_run; split_and!; try done; try lia; try apply Hin; eauto.
Qed.

Lemma set_ps_title_spec ps m title buffer w :
  ps_buffer ps = Some buffer ->
  (0 <= ps_buffer_size ps)%Z ->
  (Z.of_nat (String.length title) <= INT_MAX)%Z ->
  wp (set_ps_title ps m title)
     (fun m' w' =>
        (forall a, (a < buffer \/ buffer + ps_buffer_size ps <= a)%Z ->
           m' a = m a) /\
        (let size := Z.to_nat (ps_buffer_size ps) in
         let shown := str_take (size - 1) title in
         peek_string size m' buffer
           = (shown +:+ nul_bytes (size - String.length shown))%string) /\
        w_fs w' = w_fs w /\
        ((Z.of_nat (String.length title) < ps_buffer_size ps)%Z ->
         w_log w' = w_log w) /\
        ((ps_buffer_size ps <= Z.of_nat (String.length title))%Z ->
         exists msg, w_log w' = w_log w ++ [(LOG_ERROR, msg)])) w.
Proof.
  intros Hbuf Hsize Hlen. unfold set_ps_title. rewrite Hbuf.
  apply wp_bind. eapply wp_mono; [by apply sformat_spec|]. cbv beta.
  intros [m1 n] w1 (Hn & Hout & [Hin Hend] & Hfs & Hquiet & Hbug).
  cbn [fst snd] in *. subst n. wp_step.
  assert (Hmod : (Z.of_nat (String.length title) mod 2 ^ 64
                  = Z.of_nat (String.length title))%Z).
  { apply Z.mod_small. unfold INT_MAX in Hlen. lia. }
  rewrite Hmod.
  pose proof (str_take_length (Z.to_nat (ps_buffer_size ps - 1)) title) as Hst.
  replace (Z.to_nat (ps_buffer_size ps) - 1)
    with (Z.to_nat (ps_buffer_size ps - 1)) by lia.
  set (stored := str_take (Z.to_nat (ps_buffer_size ps - 1)) title) in *.
  split_and!; try done.
  - intros a Ha. rewrite pad_title_spec. rewrite decide_False by lia.
    by apply Hout.
  - destruct (decide (ps_buffer_size ps = 0)%Z) as [Hz|Hnz].
    { subst stored. rewrite Hz. cbn. by destruct title. }
    replace (Z.to_nat (ps_buffer_size ps))
      with (String.length stored
            + (Z.to_nat (ps_buffer_size ps) - String.length stored)) at 1 by lia.
    rewrite peek_string_app. f_equal.
    + etransitivity; [|exact Hin]. apply peek_string_ext. intros a Ha.
      rewrite pad_title_spec. rewrite decide_False by lia. done.
    + apply peek_string_zero. intros a Ha.
      rewrite pad_title_spec. case_decide as Hpad; [done|].
      assert (a = buffer + Z.of_nat (String.length stored))%Z as -> by lia.
      apply Hend. lia.
Qed.

Lemma drop_cons_inv {A} (l : list A) i x rest :
  drop i l = x :: rest -> l !! i = Some x /\ drop (S i) l = rest.
Proof.
  intros Hdrop. split.
  - rewrite <- (Nat.add_0_r i), <- lookup_drop, Hdrop. done.
  - replace (S i) with (i + 1) by lia. by rewrite <- drop_drop, Hdrop.
Qed.

Lemma init_ps_loop_adjacent argv : forall rest i e,
  0 < i -> drop i argv = rest -> contiguous_from (e + 1) rest ->
  init_ps_loop (length rest) i argv (Some e)
    = Some (Some (e + argv_bytes rest)%Z).
Proof.
  induction rest as [|[arg text] rest IH]; intros i e Hi Hdrop Hc.
  - cbn. by rewrite Z.add_0_r.
  - apply drop_cons_inv in Hdrop as [Hlook Hdrop].
    destruct Hc as [-> Hc].
    cbn [length init_ps_loop argv_bytes]. rewrite Hlook.
    destruct i as [|i]; [lia|]. cbn [Nat.eqb orb].
    rewrite bool_decide_eq_true_2 by done.
    rewrite (IH (S (S i)) _ ltac:(lia) Hdrop).
    + do 2 f_equal. lia.
    + done.
Qed.

Lemma init_ps_loop_grows argv : forall steps i e,
  0 < i -> i + steps <= length argv ->
  exists e', init_ps_loop steps i argv (Some e) = Some (Some e') /\ (e <= e')%Z.
Proof.
  induction steps as [|steps IH]; intros i e Hi Hlen.
  - exists e. by split.
  - cbn [init_ps_loop].
    destruct (lookup_lt_is_Some_2 argv i) as [[arg text] ->]; [lia|].
    destruct i as [|i]; [lia|]. cbn [Nat.eqb orb].
    case_bool_decide as Hadj.
    + destruct (IH (S (S i)) (arg + Z.of_nat (String.length text))%Z)
        as (e' & -> & Hle); [lia..|].
      exists e'. split; [done|]. lia.
    + destruct (IH (S (S i)) e) as (e' & -> & Hle); [lia..|]. eauto.
Qed.

Lemma strncmp_take n : forall a b,
  str_take n a = str_take n b -> strncmp a b n = 0%Z.
Proof.
  induction n as [|n IH]; intros [|c1 r1] [|c2 r2] Heq; simpl in *; try done.
  injection Heq as -> Heq. rewrite decide_True by done. by apply IH.
Qed.

Lemma strncmp_swap n : forall a b, strncmp b a n = (- strncmp a b n)%Z.
Proof.
  induction n as [|n IH]; intros [|c1 r1] [|c2 r2]; simpl; try done; try lia.
  destruct (decide (c1 = c2)) as [->|Hne].
  - rewrite decide_True by done. apply IH.
  - rewrite decide_False by congruence. lia.
Qed.

Section extras_edges.
Context `{Platform}.

Lemma search_path_loop_overrun filename segments : forall result w,
  quiet SYS_access w ->
  found result <= length (matches result) ->
  length (matches result)
    < found result
      + length (filter (on_disk w) (candidate filename <$> segments)) ->
  search_path_loop filename segments result w = None.
Proof.
  induction segments as [|dir rest IH]; intros result w Hq Hb Hover.
  - cbn in Hover. lia.
  - cbn [search_path_loop]. unfold bind at 1, search_path_probe.
    fold (candidate filename dir).
    destruct (proj1 (wp_iff _ _ _) (file_exists_spec (candidate filename dir) w))
      as (ex & w1 & Hrun & Hfs1 & _ & _ & Hs1 & Hex & Hex').
    unfold bind at 1. rewrite Hrun.
    assert (Hq1 : quiet SYS_access w1) by (destruct Hs1 as [_ Hs1]; by apply Hs1).
    assert (Hsame : filter (on_disk w1) (candidate filename <$> rest)
                    = filter (on_disk w) (candidate filename <$> rest)).
    { unfold on_disk. by rewrite Hfs1. }
    cbn [fmap list_fmap] in Hover.
    destruct ex.
    + rewrite filter_cons_True in Hover by (by apply Hex). cbn [length] in Hover.
      destruct (strlcpy_match result (candidate filename dir))
        as [[result' n]|] eqn:Hcopy; [|done].
      destruct (strlcpy_match_bounds _ _ _ _ Hcopy) as [Hb' Hlen].
      assert (Hfound : found result' = S (found result)).
      { unfold strlcpy_match in Hcopy.
        destruct (matches result !! found result); [|done].
        destruct (strlcpy _ _ _ _) as [[? ?]|]; [|done].
        by injection Hcopy as <- _. }
      cbn [ret]. apply IH; [done | done |]. rewrite Hsame, Hlen, Hfound. lia.
    + assert (Hoff : ~ on_disk w (candidate filename dir)).
      { intros Hon. by specialize (Hex' Hq Hon). }
      rewrite filter_cons_False in Hover by done.
      cbn [ret]. apply IH; [done | done |]. by rewrite Hsame.
Qed.

End extras_edges.

(** ** Further properties of the code *)

Section extras.
Context `{Platform}.

(** X1.  [file_exists] answers true only for a path that is there and
    changes neither the store, nor the streams, nor the heap.  Whenever
    [access] fails it answers false, whatever the reason, and logs an error
    unless the reason is ENOENT or ENOTDIR.  Left alone by the environment
    it answers whether the path is there and logs nothing. *)
Theorem file_exists_reports_only_presence (p : string) (w : World) :
  exists b w',
    file_exists p w = Some (b, w') /\
    w_fs w' = w_fs w /\ w_fds w' = w_fds w /\ w_heap w' = w_heap w /\
    (b = true -> on_disk w p) /\
    (forall e rest, w_sched w SYS_access = Err e :: rest ->
       b = false /\
       (e = ENOENT \/ e = ENOTDIR -> w_log w' = w_log w) /\
       (e <> ENOENT -> e <> ENOTDIR ->
        w_log w' = w_log w ++
          [(LOG_ERROR, "Failed to check if file %s exists: %m"%string)])) /\
    (quiet SYS_access w -> (b = true <-> on_disk w p) /\ w_log w' = w_log w).
Proof.
  destruct (proj1 (wp_iff _ _ _)
              (wp_and _ _ _ _ (file_exists_spec p w) (file_exists_log p w)))
    as (b & w' & Hrun & (Hfs & Hfds & Hheap & _ & Hon & _) & Herr & Hq).
  exists b, w'. by split_and!.
Qed.

(** X2.  [read_file] never changes the store and leaves no stream open.
    When it fails, no buffer stays allocated; when it succeeds, exactly one
    new buffer is live, holding the bytes of the file and a terminator, and
    the reported size is the number of bytes of the file.  A path that is
    not there makes it fail. *)
Theorem read_file_fails_cleanly (p : string) (w : World) :
  exists r w',
    read_file p w = Some (r, w') /\
    w_fs w' = w_fs w /\ w_fds w' = w_fds w /\
    (r = None -> w_heap w' = w_heap w) /\
    (forall buf n, r = Some (buf, n) ->
       exists f, w_fs w !! p = Some f /\
         b_bytes buf = f_data f ++ [x00] /\
         n = Z.of_nat (length (f_data f)) /\
         b_ptr buf ∉ w_heap w /\
         w_heap w' = {[ b_ptr buf ]} ∪ w_heap w) /\
    (w_fs w !! p = None -> r = None).
Proof.
  destruct (proj1 (wp_iff _ _ _) (read_file_spec p w))
    as (r & w' & Hrun & Hfs & Hfds & _ & Hr & _).
  exists r, w'. split_and!; try done.
  - by intros ->.
  - by intros buf n ->.
  - intros Hp. destruct r as [[buf n]|]; [|done].
    destruct Hr as (f & Hf & _). congruence.
Qed.

(** X3.  [read_file_if_exists] returns what [read_file] returns and leaves
    the same store, streams, heap and errno; the two differ only in the
    log, and only when the file cannot be opened because of ENOENT:
    [read_file] then logs an error and [read_file_if_exists] logs nothing.
    For a path that is not there, both fail. *)
Theorem read_file_if_exists_only_spares_the_log (p : string) (w : World) :
  exists r w1 w2,
    read_file p w = Some (r, w1) /\
    read_file_if_exists p w = Some (r, w2) /\
    w_fs w2 = w_fs w1 /\ w_fds w2 = w_fds w1 /\ w_heap w2 = w_heap w1 /\
    w_errno w2 = w_errno w1 /\
    (w_log w2 = w_log w1 \/
     (r = None /\ w_errno w2 = Some ENOENT /\ w_log w2 = w_log w /\
      w_log w1 = w_log w ++ [(LOG_ERROR, "Failed to open file %s: %m"%string)])) /\
    (w_fs w !! p = None -> quiet SYS_fopen w -> r = None /\ w_log w2 = w_log w).
Proof.
  destruct (proj1 (wp_iff _ _ _) (read_file_spec p w))
    as (r & w1 & Hrun & _ & _ & _ & Hr & _).
  exists r, w1.
  unfold read_file, read_file_if_exists, bind in *.
  destruct (fopen_read_only_cases p w)
    as [(e & Hf & Hopen) | [(Hf & Hp & Hopen) | (Hf & Hp & fd & w0 & Hopen & Hlog)]];
    rewrite Hopen in *.
  - cbn in Hrun. injection Hrun as <- <-.
    unfold gets, log_error, log_level_msg, modify, ret. cbn.
    destruct e; cbn; eexists; (split; [reflexivity|]); (split; [reflexivity|]);
      cbn; split_and!; auto.
    all: try (intros _ Hq; by rewrite (quiet_fails _ _ Hq) in Hf).
  - cbn in Hrun. injection Hrun as <- <-.
    unfold gets, log_error, log_level_msg, modify, ret. cbn.
    eexists; (split; [reflexivity|]); (split; [reflexivity|]);
      cbn; split_and!; auto.
  - exists w1. split_and!; auto.
    intros Hnone _. rewrite Hnone in Hp. by destruct Hp.
Qed.

(** X4.  Where [write_file] succeeds, the file holds the first [fileSize]
    bytes of the data and nothing else: a file that was there is truncated
    and keeps its owner, group and mode; a new file belongs to the
    effective user and group and has mode 0644 less the umask.  No stream
    stays open. *)
Theorem write_file_creates_or_truncates
    (data : list byte) (n : Z) (p : string) (w w' : World) :
  (0 <= n <= Z.of_nat (length data))%Z ->
  write_file data n p w = Some (true, w') ->
  w_fs w' =
    <[p := match w_fs w !! p with
           | Some f => mkFile (take (Z.to_nat n) data)
                              (st_uid f) (st_gid f) (st_mode f)
           | None =>
               mkFile (take (Z.to_nat n) data)
                      (c_euid (w_cfg w)) (c_egid (w_cfg w))
                      (Z.land 420 (Z.lnot (c_umask (w_cfg w))))
           end]> (w_fs w) /\
  w_fds w' = w_fds w /\ w_heap w' = w_heap w.
Proof.
  intros Hn Hrun.
  pose proof (wp_elim _ _ _ _ _ (write_file_meta data n p w Hn) Hrun)
    as (Hfs & _).
  pose proof (wp_elim _ _ _ _ _ (write_file_spec data n p w Hn) Hrun)
    as (Hfds & Hheap & _).
  split_and!; auto.
Qed.

(** X5.  Whatever the environment does, [write_file] returns, touches no
    path but its own, and leaves the streams and the heap as they were;
    when [open] itself fails, it returns failure and the store is
    unchanged. *)
Theorem write_file_touches_only_its_path
    (data : list byte) (n : Z) (p : string) (w : World) :
  (0 <= n <= Z.of_nat (length data))%Z ->
  exists b w',
    write_file data n p w = Some (b, w') /\
    w_fds w' = w_fds w /\ w_heap w' = w_heap w /\
    (forall q, q <> p -> w_fs w' !! q = w_fs w !! q) /\
    (forall e rest, w_sched w SYS_open = Err e :: rest ->
       b = false /\ w_fs w' = w_fs w).
Proof.
  intros Hn.
  destruct (proj1 (wp_iff _ _ _)
              (wp_and _ _ _ _ (write_file_spec data n p w Hn)
                              (write_file_meta data n p w Hn)))
    as (b & w' & Hrun & (Hfds & Hheap & _ & Hframe & _) & (_ & Hopen)).
  exists b, w'. by split_and!.
Qed.


(** X7.  After [write_file] has written [fileSize] bytes to a path with
    success, [file_is_empty] on that path, left alone by the environment,
    answers whether [fileSize] is zero. *)
Theorem written_file_is_empty_iff_no_bytes
    (data : list byte) (n : Z) (p : string) (w w1 : World) :
  (0 <= n <= Z.of_nat (length data))%Z ->
  write_file data n p w = Some (true, w1) ->
  quiet SYS_access w1 -> read_quiet w1 ->
  exists w2, file_is_empty p w1 = Some (bool_decide (n = 0)%Z, w2).
Proof.
  intros Hn Hrun Hqa Hqr.
  pose proof (wp_elim _ _ _ _ _ (write_file_spec data n p w Hn) Hrun)
    as (_ & _ & _ & _ & Hw & _).
  destruct Hw as (f & Hfs & Hdata); [done|].
  assert (Hp : w_fs w1 !! p = Some f) by (rewrite Hfs; apply lookup_insert_eq).
  destruct (proj1 (wp_iff _ _ _) (file_is_empty_spec p w1))
    as (b & w2 & Hrun2 & _ & _ & Htrue & Hquiet).
  exists w2. rewrite Hrun2. do 2 f_equal.
  case_bool_decide as Hz.
  - apply (Hquiet Hqa Hqr f Hp). rewrite Hdata, Hz. done.
  - destruct b; [|done]. destruct (Htrue eq_refl) as (f' & Hp' & Hnil).
    assert (f' = f) by congruence. subst f'.
    rewrite Hdata in Hnil. apply (f_equal length) in Hnil.
    rewrite length_take in Hnil. simpl in Hnil. lia.
Qed.


(** X9.  [unlink_file] undoes [write_file]: when the path was not there
    before the write, then after the write, whether it succeeded or not, an
    undisturbed [unlink_file] returns success and the store is what it was
    before the write. *)
Theorem unlink_file_undoes_write_file
    (data : list byte) (n : Z) (p : string) (b : bool) (w w1 : World) :
  (0 <= n <= Z.of_nat (length data))%Z ->
  w_fs w !! p = None ->
  write_file data n p w = Some (b, w1) ->
  quiet SYS_unlink w1 ->
  exists w2, unlink_file p w1 = Some (true, w2) /\ w_fs w2 = w_fs w.
Proof.
  intros Hn Hp Hrun Hq.
  destruct (proj1 (wp_iff _ _ _) (unlink_file_spec p w1))
    as (b' & w2 & Hrun2 & _ & _ & _ & _ & Hquiet).
  destruct (Hquiet Hq) as [-> Hfs]. exists w2. split; [done|].
  rewrite Hfs. by eapply write_then_delete.
Qed.

End extras.

Section extras_moves.
Context `{Platform}.

(** X10.  Whatever the environment does, [duplicate_file] returns, leaves
    every path other than the destination as it was (the source included,
    when it is another path), and leaves no stream open; when it reports
    success, no buffer of its own is left on the heap. *)
Theorem duplicate_file_touches_only_destination (a b : string) (w : World) :
  exists r w',
    duplicate_file a b w = Some (r, w') /\
    (forall q, q <> b -> w_fs w' !! q = w_fs w !! q) /\
    w_fds w' = w_fds w /\
    (r = true -> w_heap w' = w_heap w).
Proof.
  destruct (proj1 (wp_iff _ _ _) (duplicate_file_spec a b w))
    as (r & w' & Hrun & Hfds & _ & Hframe & Hheap & _).
  by exists r, w'.
Qed.

(** X11.  Where [duplicate_file] reports success for two different paths,
    the source was there, the destination is its exact copy (bytes, NUL
    bytes included, owner, group and mode), and the source is still
    there, unchanged. *)
Theorem duplicate_file_makes_exact_copy (a b : string) (w w' : World) :
  a <> b ->
  duplicate_file a b w = Some (true, w') ->
  exists f,
    w_fs w !! a = Some f /\
    w_fs w' = <[b := f]> (w_fs w) /\
    w_fs w' !! a = Some f /\ w_fs w' !! b = Some f.
Proof.
  intros Hab Hrun.
  pose proof (wp_elim _ _ _ _ _ (duplicate_file_spec a b w) Hrun)
    as (_ & _ & _ & _ & Hok & _).
  destruct (Hok eq_refl Hab) as (f & Ha & Hfs).
  exists f. rewrite Hfs. split_and!; try done.
  - by rewrite lookup_insert_ne.
  - apply lookup_insert_eq.
Qed.

(** X12.  Within one filesystem, with the source there, the destination
    not, and an undisturbed environment, [move_file] returns success by
    renaming: the destination holds the file, the source is gone, nothing
    else changes and nothing is logged. *)
Theorem move_file_renames_within_filesystem
    (a b : string) (f : File) (w : World) :
  strncmp a b MAXPGPATH <> 0%Z ->
  quiet SYS_access w -> quiet SYS_rename w ->
  c_mount (w_cfg w) a = c_mount (w_cfg w) b ->
  w_fs w !! a = Some f -> w_fs w !! b = None ->
  exists w',
    move_file a b w = Some (true, w') /\
    w_fs w' = <[b := f]> (delete a (w_fs w)) /\
    w_log w' = w_log w.
Proof.
  intros Hne Hqa Hqr Hm Ha Hb.
  destruct (proj1 (wp_iff _ _ _) (move_file_outcomes a b w Hne))
    as (r & w' & Hrun & _ & _ & _ & Hsame).
  destruct (Hsame Hqa Hqr Hm f Ha Hb) as (-> & Hfs & Hlog).
  by exists w'.
Qed.

(** X13.  Whatever the environment does, [move_file] between two different
    paths never loses the file: when it reports success the destination
    holds what the source held, when it reports failure the source still
    holds it; paths other than the two are never touched; and a source that
    is not there gives a failure that changes nothing. *)
Theorem move_file_never_loses_the_file (a b : string) (w : World) :
  strncmp a b MAXPGPATH <> 0%Z ->
  exists r w',
    move_file a b w = Some (r, w') /\
    (forall f, w_fs w !! a = Some f ->
       if r then w_fs w' !! b = Some f else w_fs w' !! a = Some f) /\
    (forall q, q <> a -> q <> b -> w_fs w' !! q = w_fs w !! q) /\
    (w_fs w !! a = None -> r = false /\ w_fs w' = w_fs w).
Proof.
  intros Hne.
  destruct (proj1 (wp_iff _ _ _) (move_file_outcomes a b w Hne))
    as (r & w' & Hrun & Hkeep & Hframe & Habsent & _).
  by exists r, w'.
Qed.

(** X14.  [append_to_file] never destroys bytes: whatever the environment
    does, it touches no path but its own, and a file that was there keeps
    its owner, group and mode and holds its former bytes followed by a
    prefix of the data, the first [fileSize] bytes of it when the call
    reports success.  A directory is refused: the call returns failure and
    the store is unchanged.  A new file is created as [write_file] creates
    it.  Left alone by the environment, and for a path that does not name
    a directory, the call succeeds. *)
Theorem append_to_file_keeps_existing_bytes
    (data : list byte) (n : Z) (p : string) (w : World) :
  (0 <= n <= Z.of_nat (length data))%Z ->
  exists b w',
    append_to_file data n p w = Some (b, w') /\
    w_fds w' = w_fds w /\ w_heap w' = w_heap w /\
    (forall q, q <> p -> w_fs w' !! q = w_fs w !! q) /\
    (forall f, w_fs w !! p = Some f ->
       exists k, k <= Z.to_nat n /\ (b = true -> k = Z.to_nat n) /\
         w_fs w' !! p = Some (mkFile (f_data f ++ take k data)
                                     (st_uid f) (st_gid f) (st_mode f))) /\
    (forall f, w_fs w !! p = Some f -> is_directory f ->
       b = false /\ w_fs w' = w_fs w) /\
    (b = true -> w_fs w !! p = None ->
       w_fs w' !! p =
         Some (mkFile (take (Z.to_nat n) data)
                      (c_euid (w_cfg w)) (c_egid (w_cfg w))
                      (Z.land 420 (Z.lnot (c_umask (w_cfg w)))))) /\
    (write_quiet w -> no_directory w p -> b = true).
Proof.
  intros Hn.
  destruct (proj1 (wp_iff _ _ _) (append_to_file_spec data n p w Hn))
    as (b & w' & Hrun & Hfds & Hheap & _ & Hspec).
  by exists b, w'.
Qed.

(** X15.  After [write_file] has written [B1] and
    [append_to_file] has appended [B2] to the same path, both with success,
    an undisturbed [read_file] returns [B1] followed by [B2] and a
    terminator, and reports the sum of the two lengths. *)
Theorem write_append_read_round_trip
    (B1 B2 : list byte) (p : string) (w w1 w2 : World) :
  (Z.of_nat (length B1 + length B2) < LONG_MAX)%Z ->
  write_file B1 (Z.of_nat (length B1)) p w = Some (true, w1) ->
  append_to_file B2 (Z.of_nat (length B2)) p w1 = Some (true, w2) ->
  read_quiet w2 ->
  exists buf w3,
    read_file p w2
      = Some (Some (buf, Z.of_nat (length B1 + length B2)), w3) /\
    b_bytes buf = B1 ++ B2 ++ [x00].
Proof.
  intros Hlong Hwrite Happend Hquiet.
  pose proof (wp_elim _ _ _ _ _
                (write_file_spec B1 (Z.of_nat (length B1)) p w ltac:(lia)) Hwrite)
    as (_ & _ & _ & _ & Hw & _).
  destruct Hw as (f1 & Hfs1 & Hdata1); [done|].
  rewrite Nat2Z.id, firstn_all in Hdata1.
  assert (Hp1 : w_fs w1 !! p = Some f1) by (rewrite Hfs1; apply lookup_insert_eq).
  pose proof (wp_elim _ _ _ _ _
                (append_to_file_spec B2 (Z.of_nat (length B2)) p w1 ltac:(lia)) Happend)
    as (_ & _ & _ & _ & Ha & _).
  destruct (Ha f1 Hp1) as (k & _ & Hk & Hp2). rewrite (Hk eq_refl) in Hp2.
  rewrite Nat2Z.id, firstn_all, Hdata1 in Hp2.
  destruct (proj1 (wp_iff _ _ _) (read_file_spec p w2))
    as (r & w3 & Hread & _ & _ & _ & Hr & Hsome).
  destruct Hsome as [[buf n] ->].
  { done. }
  { eexists. split; [exact Hp2|]. cbn. rewrite length_app. lia. }
  destruct Hr as (f' & Hp' & Hbytes & -> & _).
  rewrite Hp2 in Hp'. injection Hp' as <-. cbn [f_data] in *.
  rewrite length_app in Hread.
  exists buf, w3. by rewrite Hbytes, <- app_assoc.
Qed.

(** X16.  [directory_exists] changes nothing.  It answers true only for a
    path that is there and whose mode carries the directory type; left
    alone by the environment it answers exactly that, and for a path that
    is not there it logs nothing. *)
Theorem directory_exists_checks_the_type_bits (p : string) (w : World) :
  exists b w',
    directory_exists p w = Some (b, w') /\
    w_fs w' = w_fs w /\ w_fds w' = w_fds w /\ w_heap w' = w_heap w /\
    (b = true ->
     exists f, w_fs w !! p = Some f /\ Z.land (st_mode f) S_IFMT = S_IFDIR) /\
    (quiet SYS_access w -> quiet SYS_stat w ->
     b = match w_fs w !! p with
         | Some f => bool_decide (Z.land (st_mode f) S_IFMT = S_IFDIR)
         | None => false
         end) /\
    (quiet SYS_access w -> w_fs w !! p = None -> w_log w' = w_log w).
Proof.
  destruct (proj1 (wp_iff _ _ _) (directory_exists_spec p w))
    as (b & w' & Hrun & Hspec).
  by exists b, w'.
Qed.

End extras_moves.

Section extras_paths.
Context `{Platform} `{Header}.

(** X17.  Splitting a PATH value loses nothing: the segments [search_path]
    walks through, joined again with the separator, give the value back;
    there is one segment more than there are separators (an empty value
    has one, empty, segment), and no segment contains a separator. *)
Theorem path_var_segments_round_trip (pathlist : string) :
  join_path_var (path_var_segments pathlist) = pathlist /\
  length (path_var_segments pathlist) = S (count_path_var_sep pathlist) /\
  Forall (fun segment => first_path_var_separator segment = None)
         (path_var_segments pathlist).
Proof.
  split_and!.
  - apply path_var_segments_join.
  - apply path_var_segments_count.
  - apply path_var_segments_clean.
Qed.

(** X18.  [search_path_first] returns the candidate of the first directory
    of PATH in which the file exists.  When there is none, or when PATH
    cannot be read, it returns failure, logs at the level the caller asked
    for, and leaves the caller's buffer as it was.  (The existence probes
    are undisturbed, and the matches fit the slots of [SearchPath].) *)
Theorem search_path_first_returns_first_match
    (filename result : string) (logLevel : log_level) (w : World) :
  quiet SYS_access w ->
  let kept :=
    match c_get_env_copy (w_cfg w) "PATH" MAXPATHSIZE with
    | Some pathlist =>
        filter (on_disk w) (candidate filename <$> path_var_segments pathlist)
    | None => []
    end in
  Forall (fun c => String.length c < MAXPGPATH) kept ->
  length kept <= SEARCH_PATH_MATCHES ->
  exists r w',
    search_path_first filename result logLevel w = Some (r, w') /\
    w_fs w' = w_fs w /\
    match kept with
    | [] =>
        r = (false, result) /\
        last (w_log w')
          = Some (logLevel, "Failed to find %s command in your PATH"%string)
    | first :: _ => r = (true, first)
    end.
Proof.
  intros Hq kept Hfit Hcap. subst kept.
  destruct (c_get_env_copy (w_cfg w) "PATH" MAXPATHSIZE) as [pathlist|] eqn:Henv.
  - destruct (proj1 (wp_iff _ _ _)
                (search_path_first_spec filename result logLevel w pathlist
                   Henv Hq Hfit Hcap))
      as (r & w' & Hrun & Hfs & Hr).
    by exists r, w'.
  - rewrite (search_path_first_no_path _ _ _ _ Henv).
    do 2 eexists. split; [reflexivity|]. cbn. split_and!; try done.
    apply last_snoc.
Qed.

(** X19.  On entries that are distinct and are their own real paths (no
    symbolic link is involved), each shorter than MAXPGPATH,
    [search_path_deduplicate_symlinks] succeeds and returns them as they
    are, in the same order. *)
Theorem dedup_keeps_distinct_real_paths
    (results dedup : SearchPath) (w : World) :
  found results <= length (matches results) ->
  found results <= length (matches dedup) ->
  NoDup (take (found results) (matches results)) ->
  Forall (fun p => Libc.resolve w p = Some p /\ String.length p < MAXPGPATH)
         (take (found results) (matches results)) ->
  exists out w',
    search_path_deduplicate_symlinks results dedup w = Some ((true, out), w') /\
    found out = found results /\
    take (found out) (matches out) = take (found results) (matches results).
Proof.
  intros Hr Hd Hnd Hfix.
  destruct (dedup_fixed_spec results dedup w Hr Hd Hnd Hfix)
    as (out & w' & Hrun & _ & _ & Hfound & _ & Htake).
  by exists out, w'.
Qed.

(** X20.  Deduplicating twice changes nothing more: when a first call of
    [search_path_deduplicate_symlinks] has succeeded, and each path it kept
    resolves to itself (as a real path does), a second call on its output
    succeeds and keeps the same entries in the same order. *)
Theorem dedup_twice_is_dedup_once
    (results dedup dedup2 out : SearchPath) (w w1 : World) :
  found results <= length (matches results) ->
  found results <= length (matches dedup) ->
  search_path_deduplicate_symlinks results dedup w = Some ((true, out), w1) ->
  (forall real, real ∈ take (found out) (matches out) ->
     Libc.resolve w real = Some real) ->
  found out <= length (matches dedup2) ->
  exists out2 w2,
    search_path_deduplicate_symlinks out dedup2 w1 = Some ((true, out2), w2) /\
    found out2 = found out /\
    take (found out2) (matches out2) = take (found out) (matches out).
Proof.
  intros Hr Hd Hrun Hreal Hd2.
  unfold search_path_deduplicate_symlinks in Hrun.
  assert (Hwp := dedup_loop_spec results (found results) 0
                   (mkSearchPath 0 (matches dedup)) w).
  cbn [found matches take] in Hwp. rewrite drop_0 in Hwp.
  specialize (Hwp ltac:(lia) ltac:(lia) ltac:(constructor) ltac:(constructor)).
  pose proof (wp_elim _ _ _ _ _ Hwp Hrun) as (_ & Hcfg & Hiff & Hspec).
  cbn [fst snd] in *. specialize (Hspec eq_refl).
  pose proof (proj1 Hiff eq_refl) as Hshort.
  destruct (spec_dedupe_sound _ _ _ _ (NoDup_nil_2) Hspec) as [Hnd Hmem].
  destruct (dedup_loop_bounds _ _ _ _ _ _ _ Hrun) as [Hb _]; [cbn; lia|].
  cbn [snd] in Hb.
  destruct (dedup_fixed_spec out dedup2 w1 Hb Hd2 Hnd)
    as (out2 & w2 & Hrun2 & _ & _ & Hfound & _ & Htake).
  { apply Forall_forall. intros real Hin.
    rewrite (resolve_cfg w w1) by done. split; [by apply Hreal|].
    apply Hmem in Hin as [Hnil|(path & Hpath & Hres)];
      [by apply elem_of_nil in Hnil|].
    destruct (proj1 (Forall_forall _ _) Hshort path Hpath) as (q & Hq & Hlen).
    congruence. }
  by exists out2, w2.
Qed.

(** X21.  For a path that exists, with the existence check undisturbed,
    [normalize_filename] never truncates without saying so: it returns the
    real path when that is shorter than the stated size of the
    destination, and otherwise returns failure with a fatal log message,
    as it does when the path cannot be resolved (the destination is then
    left as it was).  The store is unchanged. *)
Theorem normalize_filename_resolves_existing_path
    (filename dst : string) (size : Z) (w : World) :
  on_disk w filename ->
  quiet SYS_access w ->
  (0 < size <= INT_MAX)%Z ->
  exists r w',
    normalize_filename filename dst size w = Some (r, w') /\
    w_fs w' = w_fs w /\
    match Libc.resolve w filename with
    | None =>
        r = (false, dst) /\
        last (w_log w')
          = Some (LOG_FATAL, "Failed to normalize file name %s: %m"%string)
    | Some real =>
        ((Z.of_nat (String.length real) < size)%Z -> r = (true, real)) /\
        ((size <= Z.of_nat (String.length real))%Z ->
         r = (false, str_take (Z.to_nat size - 1) real) /\
         exists msg, last (w_log w') = Some (LOG_FATAL, msg))
    end.
Proof.
  intros Hon Hq Hsize.
  destruct (proj1 (wp_iff _ _ _)
              (normalize_filename_existing filename dst size w Hon Hq Hsize))
    as (r & w' & Hrun & Hspec).
  by exists r, w'.
Qed.

End extras_paths.

(** X22.  [sformat] with a target and a format returns the length of the
    expanded text, stores at most [count - 1] bytes of it followed by a
    terminator, and writes nowhere outside the [count] bytes of the
    target; it logs an error exactly when the text did not fit. *)
Theorem sformat_truncates_and_reports
    (m : Memory) (str count : Z) (fmt text : string) (w : World) :
  (0 <= count)%Z ->
  (Z.of_nat (String.length text) <= INT_MAX)%Z ->
  exists m' w',
    sformat m (Some str) count (Some fmt) text w
      = Some ((m', Z.of_nat (String.length text)), w') /\
    (forall a, (a < str \/ str + count <= a)%Z -> m' a = m a) /\
    (let stored := str_take (Z.to_nat (count - 1)) text in
     peek_string (String.length stored) m' str = stored /\
     ((0 < count)%Z ->
      m' (str + Z.of_nat (String.length stored))%Z = Ascii.zero)) /\
    ((Z.of_nat (String.length text) < count)%Z -> w_log w' = w_log w) /\
    ((count <= Z.of_nat (String.length text))%Z ->
     exists msg, w_log w' = w_log w ++ [(LOG_ERROR, msg)]).
Proof.
  intros Hcount Hlen.
  destruct (proj1 (wp_iff _ _ _)
              (sformat_spec m str count fmt text w Hcount Hlen))
    as ([m' n] & w' & Hrun & Hn & Hout & Hin & _ & Hquiet & Hbug).
  cbn [fst snd] in *. subst n. by exists m', w'.
Qed.

(** X23.  [set_ps_title] writes only inside the title area: every byte
    outside the [ps_buffer_size] bytes at [ps_buffer] is left as it was,
    and the area afterwards holds the title, cut to one byte less than the
    area when it is too long, followed by NUL bytes up to the end of the
    area.  A title that had to be cut is reported in the log. *)
Theorem set_ps_title_stays_in_its_area
    (ps : PsStatus) (m : Memory) (title : string) (buffer : Z) (w : World) :
  ps_buffer ps = Some buffer ->
  (0 <= ps_buffer_size ps)%Z ->
  (Z.of_nat (String.length title) <= INT_MAX)%Z ->
  exists m' w',
    set_ps_title ps m title w = Some (m', w') /\
    (forall a, (a < buffer \/ buffer + ps_buffer_size ps <= a)%Z ->
       m' a = m a) /\
    (let size := Z.to_nat (ps_buffer_size ps) in
     let shown := str_take (size - 1) title in
     peek_string size m' buffer
       = (shown +:+ nul_bytes (size - String.length shown))%string) /\
    ((Z.of_nat (String.length title) < ps_buffer_size ps)%Z ->
     w_log w' = w_log w) /\
    ((ps_buffer_size ps <= Z.of_nat (String.length title))%Z ->
     exists msg, w_log w' = w_log w ++ [(LOG_ERROR, msg)]).
Proof.
  intros Hbuf Hsize Hlen.
  destruct (proj1 (wp_iff _ _ _)
              (set_ps_title_spec ps m title buffer w Hbuf Hsize Hlen))
    as (m' & w' & Hrun & Hout & Hin & _ & Hquiet & Hbug).
  by exists m', w'.
Qed.

(** X24.  When the arguments lie one after the other in memory, as the
    kernel lays them out, [init_ps_buffer] makes the title area start at
    the first argument and span all of them: its size is the number of
    bytes the arguments take, the last terminator left out. *)
Theorem init_ps_buffer_spans_contiguous_argv
    (ps : PsStatus) (arg0 : Z) (text0 : string) (rest : list (Z * string)) :
  contiguous_from arg0 ((arg0, text0) :: rest) ->
  init_ps_buffer ps (Z.of_nat (length ((arg0, text0) :: rest)))
                 ((arg0, text0) :: rest)
    = Some (mkPsStatus (Some arg0)
              (argv_bytes ((arg0, text0) :: rest) - 1)
              (argv_bytes ((arg0, text0) :: rest) - 1)).
Proof.
  intros [_ Hc]. unfold init_ps_buffer. rewrite Nat2Z.id.
  cbn [length init_ps_loop lookup list_lookup Nat.eqb orb argv_bytes].
  rewrite (init_ps_loop_adjacent _ rest 1); [|lia|done|done].
  cbn. do 2 f_equal; lia.
Qed.

(** X25.  Whatever the layout of the arguments, [init_ps_buffer] with at
    least one argument makes the title area start at the first argument
    and cover at least its text; with no argument at all it leaves the
    title without an area, and [set_ps_title] then does nothing. *)
Theorem init_ps_buffer_starts_at_first_argument
    (ps : PsStatus) (argc : Z) (argv : list (Z * string)) :
  (argc <= Z.of_nat (length argv))%Z ->
  ((0 < argc)%Z ->
   exists arg0 text0 size,
     argv !! 0 = Some (arg0, text0) /\
     init_ps_buffer ps argc argv = Some (mkPsStatus (Some arg0) size size) /\
     (Z.of_nat (String.length text0) <= size)%Z) /\
  ((argc <= 0)%Z ->
   init_ps_buffer ps argc argv
     = Some (mkPsStatus None 0 (last_status_len ps)) /\
   forall ps' m title w,
     init_ps_buffer ps argc argv = Some ps' ->
     set_ps_title ps' m title w = Some (m, w)).
Proof.
  intros Hargc. split.
  - intros Hpos. unfold init_ps_buffer.
    destruct (Z.to_nat argc) as [|steps] eqn:Hsteps; [lia|].
    destruct argv as [|[arg0 text0] rest]; [cbn in Hargc; lia|].
    cbn [init_ps_loop lookup list_lookup Nat.eqb orb].
    destruct (init_ps_loop_grows ((arg0, text0) :: rest) steps 1
                (arg0 + Z.of_nat (String.length text0))%Z)
      as (e' & -> & Hle); [lia | cbn [length] in *; lia |].
    exists arg0, text0, (e' - arg0)%Z. split_and!; try done. lia.
  - intros Hneg. unfold init_ps_buffer.
    replace (Z.to_nat argc) with 0 by lia. cbn [init_ps_loop].
    split; [done|]. by intros ps' m title w [= <-].
Qed.

Section extras_limits.
Context `{Platform}.

(** X26.  [move_file] compares only the first MAXPGPATH bytes of the two
    paths: when these agree it takes the paths for the same one, returns
    success and moves nothing, also when the paths differ further on. *)
Theorem move_file_compares_only_maxpgpath_bytes (a b : string) (w : World) :
  str_take MAXPGPATH a = str_take MAXPGPATH b ->
  exists w',
    move_file a b w = Some (true, w') /\
    w_fs w' = w_fs w /\ w_fds w' = w_fds w /\ w_heap w' = w_heap w.
Proof.
  intros Hsame. unfold move_file.
  rewrite (strncmp_take _ _ _ Hsame), decide_True by done.
  eexists. split; [reflexivity|]. by split_and!.
Qed.

(** X27.  Within one filesystem and with an undisturbed environment,
    moving a file to a free path and back again gives the store back as
    it was. *)
Theorem move_file_there_and_back (a b : string) (f : File) (w : World) :
  strncmp a b MAXPGPATH <> 0%Z ->
  quiet SYS_access w -> quiet SYS_rename w ->
  c_mount (w_cfg w) a = c_mount (w_cfg w) b ->
  w_fs w !! a = Some f -> w_fs w !! b = None ->
  exists w1 w2,
    move_file a b w = Some (true, w1) /\
    move_file b a w1 = Some (true, w2) /\
    w_fs w2 = w_fs w.
Proof.
  intros Hne Hqa Hqr Hm Ha Hb.
  pose proof (strncmp_neq _ _ _ Hne) as Hab.
  assert (Hne' : strncmp b a MAXPGPATH <> 0%Z)
    by (rewrite strncmp_swap; lia).
  destruct (proj1 (wp_iff _ _ _)
              (wp_and _ _ _ _ (move_file_spec a b w Hne)
                              (move_file_outcomes a b w Hne)))
    as (r & w1 & Hrun1 & (_ & [Hcfg Hs] & _) & (_ & _ & _ & Hsame)).
  destruct (Hsame Hqa Hqr Hm f Ha Hb) as (-> & Hfs1 & _).
  destruct (proj1 (wp_iff _ _ _) (move_file_outcomes b a w1 Hne'))
    as (r & w2 & Hrun2 & _ & _ & _ & Hsame2).
  destruct (Hsame2 (Hs _ Hqa) (Hs _ Hqr)) with (f := f) as (-> & Hfs2 & _).
  { rewrite Hcfg. done. }
  { rewrite Hfs1. apply lookup_insert_eq. }
  { rewrite Hfs1. rewrite lookup_insert_ne by done. apply lookup_delete_eq. }
  exists w1, w2. split_and!; try done.
  rewrite Hfs2, Hfs1. rewrite delete_insert_eq.
  rewrite (delete_id (delete a (w_fs w)) b)
    by (rewrite lookup_delete_ne by done; exact Hb).
  by apply insert_delete_id.
Qed.

(** X28.  [search_path] does not check the capacity of [matches]: when
    more candidates exist on disk than the array has slots, it writes past
    the end of the array, which is undefined behaviour. *)
Theorem search_path_overruns_full_matches
    (filename pathlist : string) (result : SearchPath) (w : World) :
  c_get_env_copy (w_cfg w) "PATH" MAXPATHSIZE = Some pathlist ->
  quiet SYS_access w ->
  length (matches result)
    < length (filter (on_disk w)
                (candidate filename <$> path_var_segments pathlist)) ->
  search_path filename result w = None.
Proof.
  intros Henv Hq Hover.
  unfold search_path, get_env_copy, bind at 1, gets. rewrite Henv.
  unfold bind. rewrite search_path_loop_overrun; [done | done | cbn; lia |].
  cbn [found matches]. lia.
Qed.

(** X29.  For a path that does not exist, [normalize_filename] copies with
    the bound MAXPGPATH and not with the stated size of the destination:
    when the destination is too small for the path, it writes past the end
    of the destination, which is undefined behaviour. *)
Theorem normalize_filename_overruns_small_destination
    (filename dst : string) (size : Z) (w : World) :
  w_fs w !! filename = None ->
  MAXPGPATH <= PATH_MAX ->
  Z.to_nat size <= String.length filename ->
  Z.to_nat size < MAXPGPATH ->
  normalize_filename filename dst size w = None.
Proof.
  intros Habs Hmax Hlen Hsize. unfold normalize_filename, bind.
  destruct (proj1 (wp_iff _ _ _) (file_exists_spec filename w))
    as (ex & w1 & -> & _ & _ & _ & _ & Hex & _).
  destruct ex.
  { destruct (Hex eq_refl) as [? ?]. congruence. }
  unfold strlcpy. destruct MAXPGPATH as [|k] eqn:Hk; [lia|].
  pose proof (str_take_length k filename) as Htake.
  rewrite decide_True by lia.
  rewrite decide_False; [done|].
  rewrite str_take_length. lia.
Qed.

End extras_limits.

(** ** The further properties at work *)

Section extras_examples.
Existing Instance Example.platform.
Existing Instance Sample.header.

Lemma write_file_creates_or_truncates_witness :
  (0 <= 3 <= Z.of_nat (length Example.payload))%Z /\
  write_file Example.payload 3 "/tmp/out" Example.calm
    = Some (true, Example.written) /\
  w_fs Example.written !! "/tmp/out"%string
    = Some (mkFile Example.payload 1000 1000 420).
Proof.
  assert (Hn : (0 <= 3 <= Z.of_nat (length Example.payload))%Z)
    by (vm_compute; split; discriminate).
  assert (Hrun : write_file Example.payload 3 "/tmp/out" Example.calm
                 = Some (true, Example.written)) by (vm_compute; reflexivity).
  split; [exact Hn|]. split; [exact Hrun|].
  destruct (write_file_creates_or_truncates Example.payload 3 "/tmp/out"
              Example.calm Example.written Hn Hrun) as (Hfs & _).
  rewrite Hfs, lookup_insert_eq. vm_compute. reflexivity.
Defined.

Lemma write_file_touches_only_its_path_witness :
  (0 <= 3 <= Z.of_nat (length Example.payload))%Z /\
  exists b w',
    write_file Example.payload 3 "/tmp/out"
      (Example.world (Example.faulty SYS_open (Err EROFS))) = Some (b, w') /\
    b = false /\
    w_fs w' = w_fs (Example.world (Example.faulty SYS_open (Err EROFS))).
Proof.
  assert (Hn : (0 <= 3 <= Z.of_nat (length Example.payload))%Z)
    by (vm_compute; split; discriminate).
  split; [exact Hn|].
  destruct (write_file_touches_only_its_path Example.payload 3 "/tmp/out"
              (Example.world (Example.faulty SYS_open (Err EROFS))) Hn)
    as (b & w' & Hrun & _ & _ & _ & Hopen).
  exists b, w'. split; [exact Hrun|].
  apply (Hopen EROFS []). reflexivity.
Defined.

Lemma written_file_is_empty_iff_no_bytes_witness :
  write_file [] 0 "/tmp/new" Example.calm = Some (true, Sample.touched) /\
  quiet SYS_access Sample.touched /\ read_quiet Sample.touched /\
  exists w2, file_is_empty "/tmp/new" Sample.touched = Some (true, w2).
Proof.
  assert (Hrun : write_file [] 0 "/tmp/new" Example.calm
                 = Some (true, Sample.touched)) by (vm_compute; reflexivity).
  assert (Hqa : quiet SYS_access Sample.touched) by (vm_compute; reflexivity).
  assert (Hqr : read_quiet Sample.touched)
    by (repeat split; vm_compute; reflexivity).
  split; [exact Hrun|]. split; [exact Hqa|]. split; [exact Hqr|].
  apply (written_file_is_empty_iff_no_bytes [] 0 "/tmp/new"
           Example.calm Sample.touched); [vm_compute; split; discriminate|done..].
Defined.

Lemma unlink_file_undoes_write_file_witness :
  w_fs Example.calm !! "/tmp/out"%string = None /\
  write_file Example.payload 3 "/tmp/out" Example.calm
    = Some (true, Example.written) /\
  quiet SYS_unlink Example.written /\
  exists w2,
    unlink_file "/tmp/out" Example.written = Some (true, w2) /\
    w_fs w2 = w_fs Example.calm.
Proof.
  assert (Hp : w_fs Example.calm !! "/tmp/out"%string = None)
    by (vm_compute; reflexivity).
  assert (Hrun : write_file Example.payload 3 "/tmp/out" Example.calm
                 = Some (true, Example.written)) by (vm_compute; reflexivity).
  assert (Hq : quiet SYS_unlink Example.written) by (vm_compute; reflexivity).
  split; [exact Hp|]. split; [exact Hrun|]. split; [exact Hq|].
  apply (unlink_file_undoes_write_file Example.payload 3 "/tmp/out" true
           Example.calm Example.written); [vm_compute; split; discriminate|done..].
Defined.

Lemma duplicate_file_makes_exact_copy_witness :
  exists w',
    duplicate_file "/tmp/notes" "/tmp/copy" Example.calm = Some (true, w') /\
    w_fs w' !! "/tmp/copy"%string = Some Example.notes /\
    w_fs w' !! "/tmp/notes"%string = Some Example.notes.
Proof.
  assert (Hr : result (duplicate_file "/tmp/notes" "/tmp/copy") Example.calm
               = Some true) by (vm_compute; reflexivity).
  unfold result in Hr.
  destruct (duplicate_file "/tmp/notes" "/tmp/copy" Example.calm)
    as [[r w']|] eqn:Hrun; [|discriminate].
  injection Hr as ->. exists w'. split; [reflexivity|].
  destruct (duplicate_file_makes_exact_copy "/tmp/notes" "/tmp/copy"
              Example.calm w' ltac:(discriminate) Hrun)
    as (f & Ha & _ & Ha' & Hb').
  assert (Hf : w_fs Example.calm !! "/tmp/notes"%string = Some Example.notes)
    by (vm_compute; reflexivity).
  rewrite Hf in Ha. injection Ha as <-. by split.
Defined.

Lemma move_file_renames_within_filesystem_witness :
  strncmp "/tmp/notes" "/tmp/moved" MAXPGPATH <> 0%Z /\
  c_mount (w_cfg Example.calm) "/tmp/notes"
    = c_mount (w_cfg Example.calm) "/tmp/moved" /\
  w_fs Example.calm !! "/tmp/notes"%string = Some Example.notes /\
  w_fs Example.calm !! "/tmp/moved"%string = None /\
  exists w',
    move_file "/tmp/notes" "/tmp/moved" Example.calm = Some (true, w') /\
    w_fs w' = <[ "/tmp/moved"%string := Example.notes ]>
                (delete "/tmp/notes"%string (w_fs Example.calm)) /\
    w_log w' = w_log Example.calm.
Proof.
  assert (Hne : strncmp "/tmp/notes" "/tmp/moved" MAXPGPATH <> 0%Z)
    by (vm_compute; discriminate).
  assert (Hm : c_mount (w_cfg Example.calm) "/tmp/notes"
               = c_mount (w_cfg Example.calm) "/tmp/moved") by reflexivity.
  assert (Ha : w_fs Example.calm !! "/tmp/notes"%string = Some Example.notes)
    by (vm_compute; reflexivity).
  assert (Hb : w_fs Example.calm !! "/tmp/moved"%string = None)
    by (vm_compute; reflexivity).
  split; [exact Hne|]. split; [exact Hm|]. split; [exact Ha|].
  split; [exact Hb|].
  apply (move_file_renames_within_filesystem "/tmp/notes" "/tmp/moved"
           Example.notes Example.calm Hne); try done; reflexivity.
Defined.

Lemma move_file_never_loses_the_file_witness :
  strncmp "/tmp/notes" "/mnt/notes" MAXPGPATH <> 0%Z /\
  exists w',
    move_file "/tmp/notes" "/mnt/notes"
      (Example.world (Example.faulty SYS_fwrite (Partial 1 ENOSPC)))
      = Some (false, w') /\
    w_fs w' !! "/tmp/notes"%string = Some Example.notes.
Proof.
  assert (Hne : strncmp "/tmp/notes" "/mnt/notes" MAXPGPATH <> 0%Z)
    by (vm_compute; discriminate).
  split; [exact Hne|].
  destruct (move_file_never_loses_the_file "/tmp/notes" "/mnt/notes"
              (Example.world (Example.faulty SYS_fwrite (Partial 1 ENOSPC))) Hne)
    as (r & w' & Hrun & Hkeep & _).
  assert (Hr : r = false).
  { apply (f_equal (fun o => fst <$> o)) in Hrun. vm_compute in Hrun.
    by injection Hrun as <-. }
  subst r. exists w'. split; [exact Hrun|].
  apply (Hkeep Example.notes). vm_compute. reflexivity.
Defined.

End extras_examples.

Section extras_examples_paths.
Existing Instance Example.platform.
Existing Instance Sample.header.

Lemma search_path_first_returns_first_match_witness :
  quiet SYS_access Sample.calm /\
  exists w',
    search_path_first "tool" EmptyString LOG_ERROR Sample.calm
      = Some ((true, "/usr/local/bin/tool"%string), w').
Proof.
  assert (Hq : quiet SYS_access Sample.calm) by reflexivity.
  split; [exact Hq|].
  assert (Hkept :
    match c_get_env_copy (w_cfg Sample.calm) "PATH" MAXPATHSIZE with
    | Some pathlist =>
        filter (on_disk Sample.calm)
               (candidate "tool" <$> path_var_segments pathlist)
    | None => []
    end = ["/usr/local/bin/tool"; "/usr/bin/tool"]%string)
    by (vm_compute; reflexivity).
  destruct (search_path_first_returns_first_match "tool" EmptyString LOG_ERROR
              Sample.calm Hq)
    as (r & w' & Hrun & _ & Hr).
  - rewrite Hkept. repeat constructor; vm_compute; lia.
  - rewrite Hkept. vm_compute. lia.
  - rewrite Hkept in Hr. subst r. by exists w'.
Defined.

Lemma dedup_keeps_distinct_real_paths_witness :
  NoDup (take (found Sample.found_both) (matches Sample.found_both)) /\
  exists out w',
    search_path_deduplicate_symlinks Sample.found_both Example.slots Sample.calm
      = Some ((true, out), w') /\
    take (found out) (matches out)
      = ["/usr/local/bin/tool"; "/usr/bin/tool"]%string.
Proof.
  assert (Hnd : NoDup (take (found Sample.found_both)
                            (matches Sample.found_both)))
    by (apply (bool_decide_unpack _); vm_compute; exact I).
  split; [exact Hnd|].
  destruct (dedup_keeps_distinct_real_paths Sample.found_both Example.slots
              Sample.calm)
    as (out & w' & Hrun & _ & Htake); try done.
  - vm_compute. lia.
  - vm_compute. lia.
  - repeat constructor; vm_compute; lia.
  - by exists out, w'.
Defined.

Lemma dedup_twice_is_dedup_once_witness :
  search_path_deduplicate_symlinks Example.found_twice Example.slots Example.calm
    = Some ((true, mkSearchPath 1
               ["/usr/bin/tool"; EmptyString; EmptyString; EmptyString]%string),
            final (search_path_deduplicate_symlinks Example.found_twice
                     Example.slots) Example.calm) /\
  exists out2 w2,
    search_path_deduplicate_symlinks
      (mkSearchPath 1
         ["/usr/bin/tool"; EmptyString; EmptyString; EmptyString]%string)
      Example.slots
      (final (search_path_deduplicate_symlinks Example.found_twice
                Example.slots) Example.calm)
      = Some ((true, out2), w2) /\
    take (found out2) (matches out2) = ["/usr/bin/tool"%string].
Proof.
  assert (Hrun :
    search_path_deduplicate_symlinks Example.found_twice Example.slots
      Example.calm
    = Some ((true, mkSearchPath 1
               ["/usr/bin/tool"; EmptyString; EmptyString; EmptyString]%string),
            final (search_path_deduplicate_symlinks Example.found_twice
                     Example.slots) Example.calm))
    by (vm_compute; reflexivity).
  split; [exact Hrun|].
  destruct (dedup_twice_is_dedup_once Example.found_twice Example.slots
              Example.slots _ Example.calm _ ltac:(vm_compute; lia)
              ltac:(vm_compute; lia) Hrun)
    as (out2 & w2 & Hrun2 & _ & Htake).
  - intros real Hin. apply list_elem_of_singleton in Hin. subst real.
    vm_compute. reflexivity.
  - vm_compute. lia.
  - by exists out2, w2.
Defined.

Lemma normalize_filename_resolves_existing_path_witness :
  on_disk Example.calm "/bin/tool" /\
  quiet SYS_access Example.calm /\
  exists w',
    normalize_filename "/bin/tool" EmptyString 64 Example.calm
      = Some ((true, "/usr/bin/tool"%string), w').
Proof.
  assert (Hon : on_disk Example.calm "/bin/tool") by (by eexists).
  assert (Hq : quiet SYS_access Example.calm) by reflexivity.
  split; [exact Hon|]. split; [exact Hq|].
  destruct (normalize_filename_resolves_existing_path "/bin/tool" EmptyString 64
              Example.calm Hon Hq ltac:(unfold INT_MAX; lia))
    as (r & w' & Hrun & _ & Hr).
  assert (Hres : Libc.resolve Example.calm "/bin/tool"
                 = Some "/usr/bin/tool"%string) by (vm_compute; reflexivity).
  rewrite Hres in Hr. destruct Hr as [Hfits _].
  rewrite Hfits in Hrun by (vm_compute; reflexivity). by exists w'.
Defined.

Lemma append_to_file_keeps_existing_bytes_witness :
  w_fs Sample.calm !! "/var/run.log"%string = Some Sample.journal /\
  (exists w',
     append_to_file [x21] 1 "/var/run.log" Sample.calm = Some (true, w') /\
     w_fs w' !! "/var/run.log"%string
       = Some (mkFile [x6f; x6b; x0a; x21] 1000 1000 33188)) /\
  (exists w',
     append_to_file [x21] 1 "/var/spool" Sample.calm = Some (false, w') /\
     w_fs w' = w_fs Sample.calm).
Proof.
  assert (Hp : w_fs Sample.calm !! "/var/run.log"%string = Some Sample.journal)
    by (vm_compute; reflexivity).
  split; [exact Hp|]. split.
  - destruct (append_to_file_keeps_existing_bytes [x21] 1 "/var/run.log"
                Sample.calm ltac:(vm_compute; split; discriminate))
      as (b & w' & Hrun & _ & _ & _ & Hold & _ & _ & Hok).
    assert (Hnd : no_directory Sample.calm "/var/run.log").
    { intros f Hf. rewrite Hp in Hf. injection Hf as <-.
      vm_compute. discriminate. }
    rewrite (Hok ltac:(repeat split; reflexivity) Hnd) in *.
    destruct (Hold _ Hp) as (k & _ & Hk & Hnew). rewrite (Hk eq_refl) in Hnew.
    by exists w'.
  - destruct (append_to_file_keeps_existing_bytes [x21] 1 "/var/spool"
                Sample.calm ltac:(vm_compute; split; discriminate))
      as (b & w' & Hrun & _ & _ & _ & _ & Hdir & _).
    destruct (Hdir Sample.spool) as [-> Hfs];
      [vm_compute; reflexivity | vm_compute; reflexivity |].
    by exists w'.
Defined.

Lemma write_append_read_round_trip_witness :
  write_file Example.payload 3 "/tmp/out" Example.calm
    = Some (true, Example.written) /\
  append_to_file [x21] 1 "/tmp/out" Example.written
    = Some (true, Sample.appended) /\
  read_quiet Sample.appended /\
  exists buf w3,
    read_file "/tmp/out" Sample.appended = Some (Some (buf, 4%Z), w3) /\
    b_bytes buf = [x01; x00; x02; x21; x00].
Proof.
  assert (Hwrite : write_file Example.payload 3 "/tmp/out" Example.calm
                   = Some (true, Example.written)) by (vm_compute; reflexivity).
  assert (Happend : append_to_file [x21] 1 "/tmp/out" Example.written
                    = Some (true, Sample.appended)) by (vm_compute; reflexivity).
  assert (Hq : read_quiet Sample.appended)
    by (repeat split; vm_compute; reflexivity).
  split; [exact Hwrite|]. split; [exact Happend|]. split; [exact Hq|].
  apply (write_append_read_round_trip Example.payload [x21] "/tmp/out"
           Example.calm Example.written Sample.appended);
    [vm_compute; reflexivity | exact Hwrite | exact Happend | exact Hq].
Defined.

Lemma sformat_truncates_and_reports_witness :
  exists m' w',
    sformat Sample.memory (Some 4096%Z) 4 (Some "%s"%string) "pgcopydb: copy"
            Example.calm
      = Some ((m', 14%Z), w') /\
    peek_string 3 m' 4096 = "pgc"%string /\
    m' 4099%Z = Ascii.zero /\
    m' 4100%Z = Sample.memory 4100%Z /\
    exists msg, w_log w' = w_log Example.calm ++ [(LOG_ERROR, msg)].
Proof.
  destruct (sformat_truncates_and_reports Sample.memory 4096 4 "%s"
              "pgcopydb: copy" Example.calm
              ltac:(discriminate) ltac:(vm_compute; discriminate))
    as (m' & w' & Hrun & Hout & [Hin Hend] & _ & Hbug).
  exists m', w'. split_and!.
  - exact Hrun.
  - exact Hin.
  - apply Hend. reflexivity.
  - apply Hout. right. vm_compute. discriminate.
  - apply Hbug. vm_compute. discriminate.
Defined.

Lemma set_ps_title_stays_in_its_area_witness :
  exists m' w',
    set_ps_title Sample.ps_ready Sample.memory "pgcopydb: copy" Example.calm
      = Some (m', w') /\
    peek_string 21 m' 4096 = ("pgcopydb: copy" +:+ nul_bytes 7)%string /\
    m' 4117%Z = Sample.memory 4117%Z /\
    w_log w' = w_log Example.calm.
Proof.
  destruct (set_ps_title_stays_in_its_area Sample.ps_ready Sample.memory
              "pgcopydb: copy" 4096 Example.calm eq_refl
              ltac:(discriminate) ltac:(vm_compute; discriminate))
    as (m' & w' & Hrun & Hout & Hin & Hquiet & _).
  exists m', w'. split_and!.
  - exact Hrun.
  - exact Hin.
  - apply Hout. right. vm_compute. discriminate.
  - apply Hquiet. reflexivity.
Defined.

Lemma init_ps_buffer_spans_contiguous_argv_witness :
  contiguous_from 4096 Sample.argv /\
  init_ps_buffer Sample.ps_unset 3 Sample.argv = Some Sample.ps_ready.
Proof.
  assert (Hc : contiguous_from 4096 Sample.argv)
    by (repeat split; reflexivity).
  split; [exact Hc|].
  exact (init_ps_buffer_spans_contiguous_argv Sample.ps_unset 4096 "pgcopydb"
           [(4105, "clone"); (4111, "--jobs")]%string%Z Hc).
Defined.

Lemma init_ps_buffer_starts_at_first_argument_witness :
  exists size,
    init_ps_buffer Sample.ps_unset 2
      [(4096, "pgcopydb"); (8192, "clone")]%string%Z
      = Some (mkPsStatus (Some 4096%Z) size size) /\
    (8 <= size)%Z.
Proof.
  destruct (init_ps_buffer_starts_at_first_argument Sample.ps_unset 2
              [(4096, "pgcopydb"); (8192, "clone")]%string%Z
              ltac:(vm_compute; discriminate))
    as [Hsome _].
  destruct (Hsome ltac:(reflexivity)) as (arg0 & text0 & size & H0 & Hinit & Hle).
  injection H0 as <- <-. by exists size.
Defined.

End extras_examples_paths.

Section extras_examples_limits.
Existing Instance Example.platform.

Lemma move_file_compares_only_maxpgpath_bytes_witness :
  (Example.long_path +:+ "/a")%string <> (Example.long_path +:+ "/b")%string /\
  exists w',
    move_file (Example.long_path +:+ "/a") (Example.long_path +:+ "/b")
              Example.calm = Some (true, w') /\
    w_fs w' = w_fs Example.calm.
Proof.
  split.
  - intros Heq. apply (f_equal (fun s => String.get 1025 s)) in Heq.
    vm_compute in Heq. discriminate.
  - assert (Hsame : str_take MAXPGPATH (Example.long_path +:+ "/a")
                     = str_take MAXPGPATH (Example.long_path +:+ "/b"))
      by (vm_compute; reflexivity).
    destruct (move_file_compares_only_maxpgpath_bytes
                (Example.long_path +:+ "/a") (Example.long_path +:+ "/b")
                Example.calm Hsame)
      as (w' & Hrun & Hfs & _).
    by exists w'.
Defined.

Lemma move_file_there_and_back_witness :
  strncmp "/tmp/notes" "/tmp/moved" MAXPGPATH <> 0%Z /\
  exists w1 w2,
    move_file "/tmp/notes" "/tmp/moved" Example.calm = Some (true, w1) /\
    move_file "/tmp/moved" "/tmp/notes" w1 = Some (true, w2) /\
    w_fs w2 = w_fs Example.calm.
Proof.
  assert (Hne : strncmp "/tmp/notes" "/tmp/moved" MAXPGPATH <> 0%Z)
    by (vm_compute; discriminate).
  split; [exact Hne|].
  apply (move_file_there_and_back "/tmp/notes" "/tmp/moved" Example.notes
           Example.calm Hne); try reflexivity; vm_compute; reflexivity.
Defined.

Lemma search_path_overruns_full_matches_witness :
  search_path "tool" (mkSearchPath 0 [EmptyString]) Example.calm = None.
Proof.
  apply (search_path_overruns_full_matches "tool" "/bin:/opt:/usr/bin:").
  - reflexivity.
  - reflexivity.
  - vm_compute. lia.
Defined.

Lemma normalize_filename_overruns_small_destination_witness :
  w_fs Example.calm !! "/etc/pgcopydb.ini"%string = None /\
  normalize_filename "/etc/pgcopydb.ini" EmptyString 8 Example.calm = None.
Proof.
  assert (Habs : w_fs Example.calm !! "/etc/pgcopydb.ini"%string = None)
    by (vm_compute; reflexivity).
  split; [exact Habs|].
  apply (normalize_filename_overruns_small_destination
           "/etc/pgcopydb.ini" EmptyString 8 Example.calm Habs);
    vm_compute; lia.
Defined.

End extras_examples_limits.
